(** * use-cleanup-callback: a shallow embedding of [useCleanupCallback]

    The development follows the hook as published (version 1.3.0, the variant
    with the [Options] argument): JavaScript values and completions first,
    then the helper [handleCleanupObj], then the hook body split into its
    render part and the three closures it registers (the two effect
    teardowns and the memoized output callback), and finally the theorems. *)

From Stdlib Require Import List String ZArith Bool Arith Lia.
Import ListNotations.
Open Scope string_scope.
Open Scope list_scope.
Set Warnings "-register-all".

(** ** JavaScript values *)

(** A function value is known by its identity and by what running its body
    does: it returns, or it throws the given error.  Running a body is
    recorded in the history, which is how the theorems count executions. *)
Record Fn : Type := mkFn {
  fn_ref : nat;
  fn_throws : option string
}.

(** Objects and arrays carry a reference, so that two structurally equal
    literals built at different times stay distinguishable. *)
Inductive Value : Type :=
| VUndefined
| VNull
| VBool (b : bool)
| VNum (n : Z)
| VStr (s : string)
| VFun (f : Fn)
| VObj (ref : nat) (props : list (string * Value))
| VArray (ref : nat) (items : list Value).

Inductive TypeTag : Type :=
| TUndefined | TObject | TBoolean | TNumber | TString | TFunction.

(** The [typeof] operator; [typeof null] is ["object"]. *)
Definition typeof (v : Value) : TypeTag :=
  match v with
  | VUndefined => TUndefined
  | VNull => TObject
  | VBool _ => TBoolean
  | VNum _ => TNumber
  | VStr _ => TString
  | VFun _ => TFunction
  | VObj _ _ => TObject
  | VArray _ _ => TObject
  end.

Definition isFunction (v : Value) : bool :=
  match typeof v with TFunction => true | _ => false end.

(** Property read [o.k]; a missing property reads as [undefined]. *)
Fixpoint getProp (k : string) (props : list (string * Value)) : Value :=
  match props with
  | [] => VUndefined
  | (k', v) :: rest => if String.eqb k k' then v else getProp k rest
  end.

(** [Object.is]: primitives by value, functions, objects and arrays by
    reference (numbers are integers here, so [NaN] and the signed zeros do not
    arise). *)
Definition objectIs (a b : Value) : bool :=
  match a, b with
  | VUndefined, VUndefined => true
  | VNull, VNull => true
  | VBool x, VBool y => Bool.eqb x y
  | VNum x, VNum y => Z.eqb x y
  | VStr x, VStr y => String.eqb x y
  | VFun f, VFun g => Nat.eqb (fn_ref f) (fn_ref g)
  | VObj r _, VObj r' _ => Nat.eqb r r'
  | VArray r _, VArray r' _ => Nat.eqb r r'
  | _, _ => false
  end.

(** ** Completions and the history *)

Inductive Completion (A : Type) : Type :=
| Normal (a : A)
| Throw (e : string).
Arguments Normal {A} a.
Arguments Throw {A} e.

(** What an observer sees: the user's callback being entered, and the body of
    a cleanup function being run. *)
Inductive Event : Type :=
| EvOperation (cb : nat) (args : list Value)
| EvCleanup (f : nat).

(** The user's callback.  Its closure may hold state of its own (the tests
    count calls in a captured variable), so its result is a function of
    everything that happened before the call.  Neither the callback nor a
    cleanup calls back into the hook while it runs. *)
Record Callback : Type := mkCallback {
  cb_ref : nat;
  cb_run : list Event -> list Value -> Completion Value
}.

(** ** Options *)

(** The options object as the caller writes it: every field may be left out. *)
Record OptionsArg : Type := mkOptionsArg {
  arg_cleanUpOnCall : option bool;
  arg_cleanUpOnDepsChange : option bool;
  arg_cleanUpOnUnmount : option bool
}.

Record Options : Type := mkOptions {
  cleanUpOnCall : bool;
  cleanUpOnDepsChange : bool;
  cleanUpOnUnmount : bool
}.

Definition orDefault (o : option bool) (d : bool) : bool :=
  match o with Some b => b | None => d end.

(** [{ cleanUpOnCall = true, cleanUpOnDepsChange = false,
       cleanUpOnUnmount = true }: Options = {}] *)
Definition resolveOptions (arg : option OptionsArg) : Options :=
  match arg with
  | None => mkOptions true false true
  | Some a =>
      mkOptions (orDefault (arg_cleanUpOnCall a) true)
                (orDefault (arg_cleanUpOnDepsChange a) false)
                (orDefault (arg_cleanUpOnUnmount a) true)
  end.

(** ** The cleanup object *)

(** The object held in [cleanupRef.current]. *)
Record CleanupObj : Type := mkCleanupObj {
  cleanup : Value;
  isCalled : bool
}.

(** Calling a value known to be a function: the body runs (one event) and
    either returns or throws. *)
Definition callFunction (v : Value) : list Event * Completion unit :=
  match v with
  | VFun f =>
      ([EvCleanup (fn_ref f)],
       match fn_throws f with
       | None => Normal tt
       | Some e => Throw e
       end)
  | _ => ([], Throw "TypeError: not a function")
  end.

(** [handleCleanupObj]: the flag is written before the call, so it stays set
    when the cleanup throws. *)
Definition handleCleanupObj (cleanupObj : CleanupObj)
  : CleanupObj * list Event * Completion unit :=
  if negb (isCalled cleanupObj) && isFunction (cleanup cleanupObj) then
    let marked := mkCleanupObj (cleanup cleanupObj) true in
    let '(evs, c) := callFunction (cleanup cleanupObj) in
    (marked, evs, c)
  else (cleanupObj, [], Normal tt).

(** ** The host: dependency arrays, memoization, effects *)

(** A dependency array as the caller passes it: the array object itself and
    its elements.  Arrays are not changed in place once they are passed. *)
Record DependencyList : Type := mkDeps {
  deps_ref : nat;
  deps_items : list Value
}.

Definition depsValue (deps : DependencyList) : Value :=
  VArray (deps_ref deps) (deps_items deps).

(** Modelled from the spec: the host's comparison of two dependency keys,
    which is not part of this repository.  Two keys are equal iff they have
    the same length and are pairwise shallow-equal ([Object.is]). *)
Fixpoint areHookInputsEqual (nextDeps prevDeps : list Value) : bool :=
  match nextDeps, prevDeps with
  | [], [] => true
  | a :: nextDeps', b :: prevDeps' =>
      objectIs a b && areHookInputsEqual nextDeps' prevDeps'
  | _, _ => false
  end.

(** Modelled from the spec: the host's memoization primitive [useCallback] on
    an update, which is not part of this repository.  It hands back the
    function it stored when the key is unchanged, and otherwise stores and
    returns the one it is given. *)
Definition useCallback {A : Type} (stored : A * list Value)
  (fn : A) (deps : list Value) : A * list Value :=
  if areHookInputsEqual deps (snd stored) then stored else (fn, deps).

(** The closure built by one render for [useCallback]: it captures that
    render's [callback]; [oc_ref] is its identity. *)
Record OutputCallback : Type := mkOutput {
  oc_ref : nat;
  oc_callback : Callback
}.

(** What the host keeps for one mounted instance of the hook: the two refs,
    the dependency array of the second effect (the first effect has none and
    the third has the empty one), and the [useCallback] cell. *)
Record Hook : Type := mkHook {
  cleanupRef : CleanupObj;
  optionsRef : Options;
  effectDeps : list Value;
  memoCallback : OutputCallback * list Value;
  renders : nat
}.

Record World : Type := mkWorld {
  hook : Hook;
  history : list Event
}.

(** Computations over the world that may throw. *)
Definition M (A : Type) : Type := World -> World * Completion A.

Definition ret {A : Type} (a : A) : M A := fun w => (w, Normal a).

Definition bind {A B : Type} (m : M A) (k : A -> M B) : M B :=
  fun w =>
    match m w with
    | (w', Normal a) => k a w'
    | (w', Throw e) => (w', Throw e)
    end.

Notation "x <- m ;; k" := (bind m (fun x => k))
  (at level 61, m at next level, right associativity).
Notation "m ;;; k" := (bind m (fun _ => k))
  (at level 61, right associativity).

Definition getHook : M Hook := fun w => (w, Normal (hook w)).

Definition getHistory : M (list Event) := fun w => (w, Normal (history w)).

Definition emit (evs : list Event) : M unit :=
  fun w => (mkWorld (hook w) (history w ++ evs), Normal tt).

Definition complete {A : Type} (c : Completion A) : M A := fun w => (w, c).

(** [cleanupRef.current = obj] *)
Definition withCleanupRef (obj : CleanupObj) (h : Hook) : Hook :=
  mkHook obj (optionsRef h) (effectDeps h) (memoCallback h) (renders h).

Definition setCleanupRef (obj : CleanupObj) : M unit :=
  fun w => (mkWorld (withCleanupRef obj (hook w)) (history w), Normal tt).

(** [handleCleanupObj(cleanupRef.current)]: the object in the ref is the one
    that gets marked. *)
Definition handleCleanupRef : M unit :=
  h <- getHook ;;
  let '(obj, evs, c) := handleCleanupObj (cleanupRef h) in
  setCleanupRef obj ;;;
  emit evs ;;;
  complete c.

Definition when (b : bool) (m : M unit) : M unit := if b then m else ret tt.

(** ** The hook *)

(** Teardown of [useEffect(() => () => {...}, [deps])]. *)
Definition depsChangeTeardown : M unit :=
  h <- getHook ;;
  when (cleanUpOnDepsChange (optionsRef h)) handleCleanupRef.

(** Teardown of [useEffect(() => () => {...}, [])]. *)
Definition unmountTeardown : M unit :=
  h <- getHook ;;
  when (cleanUpOnUnmount (optionsRef h)) handleCleanupRef.

(** [callback(...args)]: the call is recorded, then the body decides. *)
Definition callCallback (callback : Callback) (args : list Value) : M Value :=
  past <- getHistory ;;
  emit [EvOperation (cb_ref callback) args] ;;;
  complete (cb_run callback past args).

(** The first statement of [outputCallback]: clean up the previous call if
    the option, read from the ref at this moment, says so. *)
Definition cleanUpPreviousCall : M unit :=
  h <- getHook ;;
  when (cleanUpOnCall (optionsRef h)) handleCleanupRef.

(** What [outputCallback] does with the value its callback returned: an
    object is taken apart into [value] and [cleanup], a function is kept as the
    cleanup and returned as it is, anything else is returned and the ref is
    left alone. *)
Definition storeResult (returnValue : Value) : M Value :=
  match typeof returnValue with
  | TObject =>
      match returnValue with
      | VObj _ props =>
          setCleanupRef (mkCleanupObj (getProp "cleanup" props) false) ;;;
          ret (getProp "value" props)
      | VArray _ _ =>
          setCleanupRef (mkCleanupObj VUndefined false) ;;;
          ret VUndefined
      | _ => complete (Throw "TypeError: cannot destructure null")
      end
  | TFunction =>
      setCleanupRef (mkCleanupObj returnValue false) ;;;
      ret returnValue
  | _ => ret returnValue
  end.

(** The body of [outputCallback]. *)
Definition outputCallback (self : OutputCallback) (args : list Value)
  : M Value :=
  cleanUpPreviousCall ;;;
  returnValue <- callCallback (oc_callback self) args ;;
  storeResult returnValue.

(** The first render.  [useRef] creates the two cells, [useCallback] stores
    the first closure, and the effects are mounted: the first one writes the
    options it was rendered with into [optionsRef]. *)
Definition useCleanupCallback_mount (callback : Callback)
  (deps : DependencyList) (options : option OptionsArg)
  : OutputCallback * World :=
  let out := mkOutput 0 callback in
  (out,
   mkWorld (mkHook (mkCleanupObj VNull false) (resolveOptions options)
              [depsValue deps] (out, deps_items deps) 1)
     []).

(** What one render of the hook leaves with the host: the function it
    returns, and the effects it registers, the first holding the [options]
    of this render and the second keyed by [[deps]], an array whose one
    element is the caller's array. *)
Record Rendered : Type := mkRendered {
  returned : OutputCallback;
  renderedOptions : Options;
  renderedDeps : list Value
}.

(** A later render, render phase: the body of the hook.  The refs are found
    again, the options are put together, a new closure is built and offered
    to [useCallback] under [deps], and what [useCallback] answers is
    returned. *)
Definition useCleanupCallback (callback : Callback) (deps : DependencyList)
  (options : option OptionsArg) (h : Hook) : Rendered * Hook :=
  let cell :=
    useCallback (memoCallback h) (mkOutput (renders h) callback)
      (deps_items deps) in
  (mkRendered (fst cell) (resolveOptions options) [depsValue deps],
   mkHook (cleanupRef h) (optionsRef h) (effectDeps h) cell (S (renders h))).

(** Modelled from the spec: the host's scheduling of effects after a later
    render, which is not part of this repository.  The teardown registered
    under a key is notified when that key changes, before the new key is
    applied.  As the host does, the teardowns of a commit run before its
    effects run again: the teardown reads the options the render before has
    stored, and the first effect (registered without a key) then stores the
    options of this render in [optionsRef].  A failing teardown is reported
    to the host and the render is committed all the same. *)
Definition commitEffects (r : Rendered) : M unit :=
  fun w =>
    let '(w1, c) :=
      when (negb (areHookInputsEqual (renderedDeps r) (effectDeps (hook w))))
        depsChangeTeardown w in
    let h1 := hook w1 in
    (mkWorld (mkHook (cleanupRef h1) (renderedOptions r) (renderedDeps r)
                (memoCallback h1) (renders h1))
       (history w1), c).

Definition rerender (callback : Callback) (deps : DependencyList)
  (options : option OptionsArg) : M OutputCallback :=
  fun w =>
    let '(r, h) := useCleanupCallback callback deps options (hook w) in
    match commitEffects r (mkWorld h (history w)) with
    | (w', Normal _) => (w', Normal (returned r))
    | (w', Throw e) => (w', Throw e)
    end.

(** Modelled from the spec: the host's disposal, which is not part of this
    repository.  Every registered teardown is notified once at final disposal,
    in the order the effects were declared, each one even if an earlier one
    failed; the first failure is the one reported. *)
Definition unmount : M unit :=
  fun w =>
    let '(w1, c1) := depsChangeTeardown w in
    let '(w2, c2) := unmountTeardown w1 in
    (w2, match c1 with Normal _ => c2 | Throw e => Throw e end).

(** The function the last render handed to the component. *)
Definition currentCallback (w : World) : OutputCallback :=
  fst (memoCallback (hook w)).

(** What the host and the component can do to a mounted hook. *)
Inductive HostEvent : Type :=
| Render (callback : Callback) (deps : DependencyList)
    (options : option OptionsArg)
| Call (args : list Value)
| Unmount.

Definition step (ev : HostEvent) (w : World) : World :=
  match ev with
  | Render callback deps options => fst (rerender callback deps options w)
  | Call args => fst (outputCallback (currentCallback w) args w)
  | Unmount => fst (unmount w)
  end.

(** A failure surfaces to whoever triggered it; what happens next is up to
    them, so a run goes on with the world the failing step left. *)
Definition run (evs : list HostEvent) (w : World) : World :=
  fold_left (fun w ev => step ev w) evs w.

(** ** Reading a history and a state *)

Definition isOperation (e : Event) : bool :=
  match e with EvOperation _ _ => true | EvCleanup _ => false end.

Definition countOperations (past : list Event) : nat :=
  List.length (filter isOperation past).

(** The cleanup bodies that ran, in order. *)
Fixpoint cleanups (past : list Event) : list nat :=
  match past with
  | [] => []
  | EvCleanup f :: rest => f :: cleanups rest
  | EvOperation _ _ :: rest => cleanups rest
  end.

(** How often the body of the function [f] ran. *)
Definition executions (f : nat) (past : list Event) : nat :=
  count_occ Nat.eq_dec (cleanups past) f.

(** A cleanup object is pending when a teardown would still run it. *)
Definition pending (obj : CleanupObj) : bool :=
  negb (isCalled obj) && isFunction (cleanup obj).

(** What [storeResult] writes into the ref for a returned value, if it
    writes at all. *)
Definition storedCleanup (returnValue : Value) : option Value :=
  match returnValue with
  | VObj _ props => Some (getProp "cleanup" props)
  | VArray _ _ => Some VUndefined
  | VFun f => Some (VFun f)
  | _ => None
  end.

(** [n] teardowns in a row on the same cleanup object, whoever triggers them
    and whether or not they fail: the object they leave and the events they
    cause. *)
Fixpoint fireTimes (n : nat) (obj : CleanupObj) : CleanupObj * list Event :=
  match n with
  | 0 => (obj, [])
  | S n' =>
      let '(obj1, evs1, _) := handleCleanupObj obj in
      let '(obj2, evs2) := fireTimes n' obj1 in
      (obj2, evs1 ++ evs2)
  end.

(** The dependency array of the most recent render: the last [Render] of a
    run, or the one the hook was mounted with. *)
Fixpoint lastDeps (evs : list HostEvent) (deps0 : DependencyList)
  : DependencyList :=
  match evs with
  | [] => deps0
  | Render _ deps _ :: rest => lastDeps rest deps
  | _ :: rest => lastDeps rest deps0
  end.

(** Whether committing a render under [deps] runs the teardown of the second
    effect, and whether that teardown then handles the cleanup object. *)
Definition effectDepsChanged (deps : DependencyList) (w : World) : bool :=
  negb (areHookInputsEqual [depsValue deps] (effectDeps (hook w))).

Definition firesOnCommit (deps : DependencyList) (w : World) : bool :=
  effectDepsChanged deps w && cleanUpOnDepsChange (optionsRef (hook w)).

(** ** Assumptions on callbacks and runs *)

(** A callback arms the hook when each of its calls returns a cleanup
    function, bare or in object notation. *)
Definition arms (callback : Callback) : Prop :=
  forall past args, exists returnValue f,
    cb_run callback past args = Normal returnValue /\
    storedCleanup returnValue = Some (VFun f).

Definition defaultOptions : Options := mkOptions true false true.

(** Cleanup on unmount only. *)
Definition unmountOnly : Options := mkOptions false false true.

(** The events of a run before the unmount, for a hook kept on the options
    [unmountOnly] whose callbacks all arm it. *)
Definition unmountOnlyEvent (ev : HostEvent) : Prop :=
  match ev with
  | Render callback _ options =>
      arms callback /\ resolveOptions options = unmountOnly
  | Call _ => True
  | Unmount => False
  end.

Definition isRender (ev : HostEvent) : Prop :=
  match ev with
  | Render _ _ _ => True
  | _ => False
  end.

(** The hook is on [unmountOnly], its current callback arms it, and no
    cleanup has run. *)
Definition Quiet (w : World) : Prop :=
  optionsRef (hook w) = unmountOnly /\
  arms (oc_callback (currentCallback w)) /\
  cleanups (history w) = [].

(** From the history [base] on, the callback does not hand out the function
    [r] as a cleanup again, so a stored [r] is not stored a second time. *)
Definition neverReturns (r : nat) (base : list Event) (callback : Callback)
  : Prop :=
  forall ext args returnValue f,
    cb_run callback (base ++ ext) args = Normal returnValue ->
    storedCleanup returnValue = Some (VFun f) ->
    fn_ref f <> r.

Definition eventNeverReturns (r : nat) (base : list Event) (ev : HostEvent)
  : Prop :=
  match ev with
  | Render callback _ _ => neverReturns r base callback
  | _ => True
  end.

Definition Extends (base past : list Event) : Prop :=
  exists ext, past = base ++ ext.

(** The body of [r] has run at most once more than the [n0] times it had run
    at the start, and not even once more while [r] is still stored and not
    marked. *)
Definition AtMostOnce (r n0 : nat) (obj : CleanupObj) (past : list Event)
  : Prop :=
  executions r past <= n0 + 1 /\
  (forall g, cleanup obj = VFun g -> fn_ref g = r -> isCalled obj = false ->
             executions r past = n0).

Definition AtMostOnceFrom (r n0 : nat) (base : list Event) (w : World)
  : Prop :=
  AtMostOnce r n0 (cleanupRef (hook w)) (history w) /\
  Extends base (history w).

(** Every call of the callback hands out a new function: the one returned
    on the Nth call is [cN]. *)
Definition handsOutFresh (callback : Callback) : Prop :=
  forall past args returnValue f,
    cb_run callback past args = Normal returnValue ->
    storedCleanup returnValue = Some (VFun f) ->
    fn_ref f = countOperations past.

Definition freshEvent (ev : HostEvent) : Prop :=
  match ev with
  | Render callback _ _ => handsOutFresh callback
  | _ => True
  end.

(** No body has run twice, every function that ran or is stored was handed
    out by a call already made, and a function stored and not marked has not
    run. *)
Definition Fresh (obj : CleanupObj) (past : list Event) : Prop :=
  NoDup (cleanups past) /\
  (forall r, In r (cleanups past) -> r < countOperations past) /\
  (forall f, cleanup obj = VFun f -> fn_ref f < countOperations past) /\
  (forall f, cleanup obj = VFun f -> isCalled obj = false ->
             ~ In (fn_ref f) (cleanups past)).

Definition FreshWorld (w : World) : Prop :=
  Fresh (cleanupRef (hook w)) (history w) /\
  handsOutFresh (oc_callback (currentCallback w)).

(** ** Inputs of the scenarios *)

(** Returns a fresh cleanup [cN] on its Nth call. *)
Definition freshRelease : Callback :=
  mkCallback 0
    (fun past _ => Normal (VFun (mkFn (countOperations past) None))).

(** Returns [{ value: "foo", cleanup: cleanupFn }] on every call. *)
Definition fooWithCleanup : Callback :=
  mkCallback 0
    (fun _ _ =>
       Normal (VObj 0 [("value", VStr "foo");
                       ("cleanup", VFun (mkFn 7 None))])).

(** Returns the cleanup [c0] on its first call and nothing afterwards. *)
Definition releaseOnce : Callback :=
  mkCallback 0
    (fun past _ =>
       if Nat.eqb (countOperations past) 0
       then Normal (VFun (mkFn 0 None))
       else Normal VUndefined).

(** Throws on every call. *)
Definition failing : Callback :=
  mkCallback 1 (fun _ _ => Throw "boom").

(** Returns the same throwing cleanup on every call. *)
Definition throwingRelease : Callback :=
  mkCallback 2 (fun _ _ => Normal (VFun (mkFn 9 (Some "cleanup failed")))).

(** Callbacks that do nothing but identify themselves, as the mocks of the
    first test do. *)
Definition inputCallback (ref : nat) : Callback :=
  mkCallback ref (fun _ _ => Normal VUndefined).

Definition depsA (ref : nat) : DependencyList := mkDeps ref [VStr "a"].

Definition depsOf (ref : nat) (dep : string) : DependencyList :=
  mkDeps ref [VStr dep].

Definition onlyOnCall (b : bool) : option OptionsArg :=
  Some (mkOptionsArg (Some b) None None).

Definition onlyOnDepsChange (b : bool) : option OptionsArg :=
  Some (mkOptionsArg None (Some b) None).

(** Returns the cleanup [mockCleanupN] on every call, as the callbacks of the
    option tests do. *)
Definition returnsMock (n : nat) : Callback :=
  mkCallback n (fun _ _ => Normal (VFun (mkFn n None))).

(** The array literal written in a render: a new array each time. *)
Definition emptyDeps (ref : nat) : DependencyList := mkDeps ref [].

(** A mounted hook whose callback has been called once. *)
Definition calledOnce (callback : Callback) (options : option OptionsArg)
  : World :=
  run [Call []] (snd (useCleanupCallback_mount callback (depsA 0) options)).

(** ** What the calls of a run hand out *)

(** The function a cleanup object still owes a run to, if any. *)
Definition pendingRefs (obj : CleanupObj) : list nat :=
  match cleanup obj with
  | VFun f => if isCalled obj then [] else [fn_ref f]
  | _ => []
  end.

(** The cleanup function a completed callback hands to the hook, if any. *)
Definition handedOutBy (c : Completion Value) : list nat :=
  match c with
  | Normal returnValue =>
      match storedCleanup returnValue with
      | Some (VFun f) => [fn_ref f]
      | _ => []
      end
  | Throw _ => []
  end.

(** The same for the call [Call args] made in the world [w]; nothing is
    handed out when the cleanup of the previous call throws, since the
    callback is then not entered. *)
Definition handedOutByCall (w : World) (args : list Value) : list nat :=
  match cleanUpPreviousCall w with
  | (w1, Normal _) =>
      handedOutBy (cb_run (oc_callback (currentCallback w)) (history w1) args)
  | (_, Throw _) => []
  end.

(** The cleanup functions handed out along a run, in order. *)
Fixpoint handedOut (evs : list HostEvent) (w : World) : list nat :=
  match evs with
  | [] => []
  | ev :: rest =>
      match ev with
      | Call args => handedOutByCall w args
      | _ => []
      end ++ handedOut rest (step ev w)
  end.

(** Events before the unmount that leave [cleanUpOnCall] and
    [cleanUpOnUnmount] set. *)
Definition keepsCleanups (ev : HostEvent) : Prop :=
  match ev with
  | Render _ _ options =>
      cleanUpOnCall (resolveOptions options) = true /\
      cleanUpOnUnmount (resolveOptions options) = true
  | Call _ => True
  | Unmount => False
  end.

(** ** The earlier variants of the hook *)

(** [executeIfFunction], the teardown helper of the two earlier variants;
    it keeps no flag. *)
Definition executeIfFunction (arg : Value) : list Event * Completion unit :=
  if isFunction arg then callFunction arg else ([], Normal tt).

(** What an earlier variant keeps between calls: the ref, which holds the
    cleanup itself, beside the history. *)
Record LegacyWorld : Type := mkLegacy {
  cleanupCallback : Value;
  legacyHistory : list Event
}.

(** [useRef(null)] *)
Definition legacyMounted : LegacyWorld := mkLegacy VNull [].

(** [executeIfFunction(cleanupCallback.current)], the first statement of the
    output callback and the whole teardown of the unmount effect. *)
Definition legacyTeardown (w : LegacyWorld) : LegacyWorld * Completion unit :=
  let '(evs, c) := executeIfFunction (cleanupCallback w) in
  (mkLegacy (cleanupCallback w) (legacyHistory w ++ evs), c).

(** The first variant: whatever the callback returns goes into the ref and
    back to the caller. *)
Module Legacy1.

Definition outputCallback (callback : Callback) (args : list Value)
  (w : LegacyWorld) : LegacyWorld * Completion Value :=
  match legacyTeardown w with
  | (w1, Throw e) => (w1, Throw e)
  | (w1, Normal _) =>
      let entered :=
        legacyHistory w1 ++ [EvOperation (cb_ref callback) args] in
      match cb_run callback (legacyHistory w1) args with
      | Throw e => (mkLegacy (cleanupCallback w1) entered, Throw e)
      | Normal returnValue => (mkLegacy returnValue entered, Normal returnValue)
      end
  end.

End Legacy1.

(** The second variant: object notation is taken apart, a function is kept,
    and for anything else the ref is left alone. *)
Module Legacy2.

Definition outputCallback (callback : Callback) (args : list Value)
  (w : LegacyWorld) : LegacyWorld * Completion Value :=
  match legacyTeardown w with
  | (w1, Throw e) => (w1, Throw e)
  | (w1, Normal _) =>
      let entered :=
        legacyHistory w1 ++ [EvOperation (cb_ref callback) args] in
      match cb_run callback (legacyHistory w1) args with
      | Throw e => (mkLegacy (cleanupCallback w1) entered, Throw e)
      | Normal returnValue =>
          match typeof returnValue with
          | TObject =>
              match returnValue with
              | VObj _ props =>
                  (mkLegacy (getProp "cleanup" props) entered,
                   Normal (getProp "value" props))
              | VArray _ _ => (mkLegacy VUndefined entered, Normal VUndefined)
              | _ =>
                  (mkLegacy (cleanupCallback w1) entered,
                   Throw "TypeError: cannot destructure null")
              end
          | TFunction => (mkLegacy returnValue entered, Normal returnValue)
          | _ => (mkLegacy (cleanupCallback w1) entered, Normal returnValue)
          end
      end
  end.

End Legacy2.

(** What can happen to a mounted hook of an earlier variant.  The callback a
    call enters is the one held by the function that is called. *)
Inductive LegacyEvent : Type :=
| LegacyCall (callback : Callback) (args : list Value)
| LegacyUnmount.

Definition legacyStep
  (call : Callback -> list Value -> LegacyWorld
          -> LegacyWorld * Completion Value)
  (ev : LegacyEvent) (w : LegacyWorld) : LegacyWorld :=
  match ev with
  | LegacyCall callback args => fst (call callback args w)
  | LegacyUnmount => fst (legacyTeardown w)
  end.

Definition legacyRun
  (call : Callback -> list Value -> LegacyWorld
          -> LegacyWorld * Completion Value)
  (evs : list LegacyEvent) (w : LegacyWorld) : LegacyWorld :=
  fold_left (fun w ev => legacyStep call ev w) evs w.

(** The function held by a value, if it is one. *)
Definition functionRef (v : Value) : list nat :=
  match v with
  | VFun f => [fn_ref f]
  | _ => []
  end.

(** The function the first variant takes from a completed callback. *)
Definition returnedFunction (c : Completion Value) : list nat :=
  match c with
  | Normal returnValue => functionRef returnValue
  | Throw _ => []
  end.

(** The cleanup functions handed out along a run of an earlier variant, as
    [taken] reads them off what the callbacks return. *)
Fixpoint legacyHandedOut
  (call : Callback -> list Value -> LegacyWorld
          -> LegacyWorld * Completion Value)
  (taken : Completion Value -> list nat)
  (evs : list LegacyEvent) (w : LegacyWorld) : list nat :=
  match evs with
  | [] => []
  | ev :: rest =>
      match ev with
      | LegacyCall callback args =>
          match legacyTeardown w with
          | (w1, Normal _) => taken (cb_run callback (legacyHistory w1) args)
          | (_, Throw _) => []
          end
      | LegacyUnmount => []
      end ++ legacyHandedOut call taken rest (legacyStep call ev w)
  end.

(** The callback returns on every call, and a function it returns does not
    throw when run. *)
Definition returnsQuietly (callback : Callback) : Prop :=
  forall past args, exists returnValue,
    cb_run callback past args = Normal returnValue /\
    (forall f, returnValue = VFun f -> fn_throws f = None).

(** The callback returns on every call a function or object notation, and
    the cleanup in it, if it is a function, does not throw when run. *)
Definition storesQuietly (callback : Callback) : Prop :=
  forall past args, exists returnValue c,
    cb_run callback past args = Normal returnValue /\
    storedCleanup returnValue = Some c /\
    (forall f, c = VFun f -> fn_throws f = None).

Definition legacyCallOf (P : Callback -> Prop) (ev : LegacyEvent) : Prop :=
  match ev with
  | LegacyCall callback _ => P callback
  | LegacyUnmount => False
  end.

(** The ref holds nothing that throws when run. *)
Definition quietRef (w : LegacyWorld) : Prop :=
  forall f, cleanupCallback w = VFun f -> fn_throws f = None.

(** The cleanups that ran, and after them the one still to run. *)
Definition owed (w : World) : list nat :=
  cleanups (history w) ++ pendingRefs (cleanupRef (hook w)).

(** The callbacks that were entered, in order, by their identity. *)
Fixpoint operations (past : list Event) : list nat :=
  match past with
  | [] => []
  | EvOperation cb _ :: rest => cb :: operations rest
  | EvCleanup _ :: rest => operations rest
  end.

(** Events whose renders pass a key equal to [key]. *)
Definition keepsKey (key : list Value) (ev : HostEvent) : Prop :=
  match ev with
  | Render _ deps _ => areHookInputsEqual (deps_items deps) key = true
  | _ => True
  end.

(** * Properties *)

(** ** The cleanup object *)

Lemma pending_function (obj : CleanupObj) :
  pending obj = true ->
  exists f, cleanup obj = VFun f /\ isCalled obj = false.
Proof.
  unfold pending, isFunction. destruct obj as [c called]; simpl.
  destruct called; simpl; [discriminate|].
  destruct c; simpl; try discriminate. intros _. eauto.
Qed.

Lemma handleCleanupObj_pending (obj : CleanupObj) (f : Fn) :
  cleanup obj = VFun f -> isCalled obj = false ->
  handleCleanupObj obj =
    (mkCleanupObj (VFun f) true, [EvCleanup (fn_ref f)],
     match fn_throws f with None => Normal tt | Some e => Throw e end).
Proof.
  intros Hc Hi. unfold handleCleanupObj. rewrite Hc, Hi. reflexivity.
Qed.

Lemma handleCleanupObj_idle (obj : CleanupObj) :
  pending obj = false -> handleCleanupObj obj = (obj, [], Normal tt).
Proof.
  unfold pending, handleCleanupObj. intros ->. reflexivity.
Qed.

Lemma handleCleanupObj_consumes (obj : CleanupObj) :
  pending (fst (fst (handleCleanupObj obj))) = false.
Proof.
  destruct (pending obj) eqn:Hp.
  - destruct (pending_function obj Hp) as [f [Hc Hi]].
    rewrite (handleCleanupObj_pending obj f Hc Hi). reflexivity.
  - rewrite (handleCleanupObj_idle obj Hp). exact Hp.
Qed.

(** ** Histories *)

Lemma cleanups_app (xs ys : list Event) :
  cleanups (xs ++ ys) = cleanups xs ++ cleanups ys.
Proof.
  induction xs as [|[cb args|f] xs IH]; simpl; [reflexivity | exact IH |].
  rewrite IH. reflexivity.
Qed.

Lemma executions_app (r : nat) (xs ys : list Event) :
  executions r (xs ++ ys) = executions r xs + executions r ys.
Proof. unfold executions. rewrite cleanups_app. apply count_occ_app. Qed.

Lemma countOperations_app (xs ys : list Event) :
  countOperations (xs ++ ys) = countOperations xs + countOperations ys.
Proof.
  unfold countOperations. rewrite filter_app, length_app. reflexivity.
Qed.

(** ** The monadic steps, unfolded *)

Lemma handleCleanupRef_eq (w : World) :
  handleCleanupRef w =
    (mkWorld
       (withCleanupRef (fst (fst (handleCleanupObj (cleanupRef (hook w)))))
          (hook w))
       (history w ++ snd (fst (handleCleanupObj (cleanupRef (hook w))))),
     snd (handleCleanupObj (cleanupRef (hook w)))).
Proof.
  unfold handleCleanupRef, bind, getHook.
  destruct (handleCleanupObj (cleanupRef (hook w))) as [[obj evs] c].
  reflexivity.
Qed.

Lemma cleanUpPreviousCall_eq (w : World) :
  cleanUpPreviousCall w =
    if cleanUpOnCall (optionsRef (hook w)) then handleCleanupRef w
    else (w, Normal tt).
Proof.
  unfold cleanUpPreviousCall, bind, getHook, when.
  destruct (cleanUpOnCall (optionsRef (hook w))); reflexivity.
Qed.

Lemma outputCallback_eq (self : OutputCallback) (args : list Value)
  (w : World) :
  outputCallback self args w =
    match cleanUpPreviousCall w with
    | (w1, Throw e) => (w1, Throw e)
    | (w1, Normal _) =>
        let w2 :=
          mkWorld (hook w1)
            (history w1 ++ [EvOperation (cb_ref (oc_callback self)) args]) in
        match cb_run (oc_callback self) (history w1) args with
        | Throw e => (w2, Throw e)
        | Normal returnValue => storeResult returnValue w2
        end
    end.
Proof.
  unfold outputCallback, bind at 1.
  destruct (cleanUpPreviousCall w) as [w1 [u|e]]; [|reflexivity].
  unfold callCallback, bind, getHistory, emit, complete. simpl.
  destruct (cb_run (oc_callback self) (history w1) args); reflexivity.
Qed.

Lemma storeResult_slot (returnValue : Value) (w : World) :
  cleanupRef (hook (fst (storeResult returnValue w))) =
    match storedCleanup returnValue with
    | Some c => mkCleanupObj c false
    | None => cleanupRef (hook w)
    end.
Proof. destruct returnValue; reflexivity. Qed.

(** ** Renders and the unmount, unfolded *)

Lemma depsChangeTeardown_eq (w : World) :
  depsChangeTeardown w =
    if cleanUpOnDepsChange (optionsRef (hook w)) then handleCleanupRef w
    else (w, Normal tt).
Proof.
  unfold depsChangeTeardown, bind, getHook, when.
  destruct (cleanUpOnDepsChange (optionsRef (hook w))); reflexivity.
Qed.

Lemma unmountTeardown_eq (w : World) :
  unmountTeardown w =
    if cleanUpOnUnmount (optionsRef (hook w)) then handleCleanupRef w
    else (w, Normal tt).
Proof.
  unfold unmountTeardown, bind, getHook, when.
  destruct (cleanUpOnUnmount (optionsRef (hook w))); reflexivity.
Qed.

Lemma rerender_world (callback : Callback) (deps : DependencyList)
  (options : option OptionsArg) (w : World) :
  fst (rerender callback deps options w) =
    (let w1 := if firesOnCommit deps w then fst (handleCleanupRef w) else w in
     mkWorld (mkHook (cleanupRef (hook w1)) (resolveOptions options)
                [depsValue deps]
                (useCallback (memoCallback (hook w))
                   (mkOutput (renders (hook w)) callback) (deps_items deps))
                (S (renders (hook w))))
       (history w1)).
Proof.
  unfold rerender, useCleanupCallback, commitEffects, firesOnCommit,
    effectDepsChanged, when.
  cbn [renderedDeps renderedOptions returned hook effectDeps history].
  destruct (negb (areHookInputsEqual [depsValue deps] (effectDeps (hook w)))).
  - rewrite depsChangeTeardown_eq. cbn [hook optionsRef]. simpl andb.
    destruct (cleanUpOnDepsChange (optionsRef (hook w))).
    + rewrite !handleCleanupRef_eq. cbn [fst snd hook history cleanupRef].
      destruct (snd (handleCleanupObj (cleanupRef (hook w)))); reflexivity.
    + reflexivity.
  - reflexivity.
Qed.

Lemma rerender_current (callback : Callback) (deps : DependencyList)
  (options : option OptionsArg) (w : World) :
  currentCallback (fst (rerender callback deps options w)) =
    returned (fst (useCleanupCallback callback deps options (hook w))).
Proof. rewrite rerender_world. reflexivity. Qed.

Lemma unmount_world (w : World) :
  fst (unmount w) =
    (let w1 := if cleanUpOnDepsChange (optionsRef (hook w))
               then fst (handleCleanupRef w) else w in
     if cleanUpOnUnmount (optionsRef (hook w))
     then fst (handleCleanupRef w1) else w1).
Proof.
  unfold unmount. rewrite depsChangeTeardown_eq.
  destruct (cleanUpOnDepsChange (optionsRef (hook w))).
  - destruct (handleCleanupRef w) as [w1 c1] eqn:H1. cbn [fst].
    assert (Ho : optionsRef (hook w1) = optionsRef (hook w)).
    { rewrite handleCleanupRef_eq in H1. inversion H1. reflexivity. }
    rewrite unmountTeardown_eq, Ho.
    destruct (cleanUpOnUnmount (optionsRef (hook w))).
    + destruct (handleCleanupRef w1); reflexivity.
    + reflexivity.
  - cbn [fst]. rewrite unmountTeardown_eq.
    destruct (cleanUpOnUnmount (optionsRef (hook w))).
    + destruct (handleCleanupRef w); reflexivity.
    + reflexivity.
Qed.

(** ** What a step leaves alone *)

Lemma handleCleanupRef_frame (w : World) :
  hook (fst (handleCleanupRef w)) =
    withCleanupRef (cleanupRef (hook (fst (handleCleanupRef w)))) (hook w).
Proof. rewrite handleCleanupRef_eq. reflexivity. Qed.

Lemma storeResult_frame (returnValue : Value) (w : World) :
  hook (fst (storeResult returnValue w)) =
    withCleanupRef (cleanupRef (hook (fst (storeResult returnValue w))))
      (hook w) /\
  history (fst (storeResult returnValue w)) = history w.
Proof.
  destruct w as [[obj o e m r] past].
  destruct returnValue; split; reflexivity.
Qed.

Lemma cleanUpPreviousCall_frame (w : World) :
  hook (fst (cleanUpPreviousCall w)) =
    withCleanupRef (cleanupRef (hook (fst (cleanUpPreviousCall w)))) (hook w).
Proof.
  rewrite cleanUpPreviousCall_eq.
  destruct (cleanUpOnCall (optionsRef (hook w))).
  - apply handleCleanupRef_frame.
  - destruct w as [[obj o e m r] past]. reflexivity.
Qed.

Lemma outputCallback_frame (self : OutputCallback) (args : list Value)
  (w : World) :
  hook (fst (outputCallback self args w)) =
    withCleanupRef (cleanupRef (hook (fst (outputCallback self args w))))
      (hook w).
Proof.
  rewrite outputCallback_eq.
  pose proof (cleanUpPreviousCall_frame w) as H1.
  destruct (cleanUpPreviousCall w) as [w1 [u|e]]; cbn [fst] in *.
  - cbv zeta.
    destruct (cb_run (oc_callback self) (history w1) args) as [rv|e].
    + destruct (storeResult_frame rv
        (mkWorld (hook w1)
           (history w1 ++ [EvOperation (cb_ref (oc_callback self)) args])))
        as [Hs _].
      rewrite Hs. cbn [hook]. rewrite H1. reflexivity.
    + cbn [fst hook]. rewrite H1. reflexivity.
  - rewrite H1. reflexivity.
Qed.

(** The four settings of the two options an unmount reads. *)
Ltac unmount_cases w :=
  destruct (cleanUpOnDepsChange (optionsRef (hook w)));
  destruct (cleanUpOnUnmount (optionsRef (hook w))).

Lemma unmount_frame (w : World) :
  hook (fst (unmount w)) =
    withCleanupRef (cleanupRef (hook (fst (unmount w)))) (hook w).
Proof.
  rewrite unmount_world. cbv zeta.
  unmount_cases w; rewrite ?handleCleanupRef_eq; cbn [fst hook];
    destruct w as [[obj o e m r] past]; reflexivity.
Qed.

Lemma run_app (evs1 evs2 : list HostEvent) (w : World) :
  run (evs1 ++ evs2) w = run evs2 (run evs1 w).
Proof. unfold run. apply fold_left_app. Qed.

Lemma run_cons (ev : HostEvent) (evs : list HostEvent) (w : World) :
  run (ev :: evs) w = run evs (step ev w).
Proof. reflexivity. Qed.

(** The second effect always remembers the array of the latest render. *)
Lemma effectDeps_run (evs : list HostEvent) (deps0 : DependencyList)
  (w : World) :
  effectDeps (hook w) = [depsValue deps0] ->
  effectDeps (hook (run evs w)) = [depsValue (lastDeps evs deps0)].
Proof.
  revert deps0 w. induction evs as [|ev evs IH]; intros deps0 w Hw.
  - exact Hw.
  - rewrite run_cons.
    destruct ev as [callback deps options|args|]; simpl lastDeps.
    + apply IH. simpl step. rewrite rerender_world. reflexivity.
    + apply IH. simpl step. rewrite outputCallback_frame. exact Hw.
    + apply IH. simpl step. rewrite unmount_frame. exact Hw.
Qed.

(** ** At most once *)

Lemma fireTimes_spent (n : nat) (obj : CleanupObj) :
  pending obj = false -> fireTimes n obj = (obj, []).
Proof.
  intros Hp. induction n as [|n IH]; [reflexivity|].
  simpl. rewrite (handleCleanupObj_idle obj Hp), IH. reflexivity.
Qed.

Lemma fireTimes_once (n : nat) (obj : CleanupObj) :
  fireTimes (S n) obj =
    (fst (fst (handleCleanupObj obj)), snd (fst (handleCleanupObj obj))).
Proof.
  simpl. pose proof (handleCleanupObj_consumes obj) as Hc.
  destruct (handleCleanupObj obj) as [[obj1 evs1] c]. cbn [fst snd] in *.
  rewrite (fireTimes_spent n obj1 Hc). rewrite app_nil_r. reflexivity.
Qed.

Lemma handleCleanupObj_events (obj : CleanupObj) :
  snd (fst (handleCleanupObj obj)) =
    match cleanup obj with
    | VFun f => if isCalled obj then [] else [EvCleanup (fn_ref f)]
    | _ => []
    end.
Proof.
  unfold handleCleanupObj. destruct obj as [c called]; simpl.
  destruct called; simpl; [destruct c; reflexivity|].
  destruct c; reflexivity.
Qed.

Lemma Extends_refl (base : list Event) : Extends base base.
Proof. exists []. rewrite app_nil_r. reflexivity. Qed.

Lemma Extends_app (base past evs : list Event) :
  Extends base past -> Extends base (past ++ evs).
Proof.
  intros [ext Hext]. exists (ext ++ evs). rewrite Hext, app_assoc.
  reflexivity.
Qed.

(** The invariant behind the theorem, for one function [r] that had run [n0]
    times when the history was [base]. *)
Section AtMostOnceInvariant.

Variables (r n0 : nat) (base : list Event).

Lemma AtMostOnce_fire (obj : CleanupObj) (past : list Event) :
  AtMostOnce r n0 obj past ->
  AtMostOnce r n0 (fst (fst (handleCleanupObj obj)))
    (past ++ snd (fst (handleCleanupObj obj))).
Proof.
  intros [Hle Hfresh].
  destruct (pending obj) eqn:Hp.
  - destruct (pending_function obj Hp) as [f [Hc Hi]].
    rewrite (handleCleanupObj_pending obj f Hc Hi). cbn [fst snd].
    unfold AtMostOnce. rewrite executions_app.
    unfold executions at 2 4. simpl.
    split.
    + destruct (Nat.eq_dec (fn_ref f) r) as [Heq|Hne].
      * rewrite (Hfresh f Hc Heq Hi). lia.
      * lia.
    + simpl. discriminate.
  - rewrite (handleCleanupObj_idle obj Hp). cbn [fst snd].
    rewrite app_nil_r. split; assumption.
Qed.

Lemma AtMostOnce_operation (obj : CleanupObj) (past : list Event)
  (cb : nat) (args : list Value) :
  AtMostOnce r n0 obj past ->
  AtMostOnce r n0 obj (past ++ [EvOperation cb args]).
Proof.
  intros [Hle Hfresh]. unfold AtMostOnce. rewrite executions_app.
  unfold executions at 2 4. simpl. rewrite !Nat.add_0_r.
  split; assumption.
Qed.

Lemma AtMostOnce_store (obj : CleanupObj) (past : list Event) (c : Value) :
  (forall g, c = VFun g -> fn_ref g <> r) ->
  AtMostOnce r n0 obj past ->
  AtMostOnce r n0 (mkCleanupObj c false) past.
Proof.
  intros Hother [Hle _]. split; [exact Hle|].
  simpl. intros g Hc Hr _. destruct (Hother g Hc Hr).
Qed.

Lemma AtMostOnceFrom_handleCleanupRef (w : World) :
  AtMostOnceFrom r n0 base w ->
  AtMostOnceFrom r n0 base (fst (handleCleanupRef w)).
Proof.
  intros [H Hext]. unfold AtMostOnceFrom. rewrite handleCleanupRef_eq.
  cbn [fst hook history]. split.
  - apply AtMostOnce_fire. exact H.
  - apply Extends_app. exact Hext.
Qed.

Lemma AtMostOnceFrom_outputCallback (self : OutputCallback)
  (args : list Value) (w : World) :
  neverReturns r base (oc_callback self) ->
  AtMostOnceFrom r n0 base w ->
  AtMostOnceFrom r n0 base (fst (outputCallback self args w)).
Proof.
  intros Hnever H. rewrite outputCallback_eq.
  assert (H1 : AtMostOnceFrom r n0 base (fst (cleanUpPreviousCall w))).
  { rewrite cleanUpPreviousCall_eq.
    destruct (cleanUpOnCall (optionsRef (hook w))).
    - apply AtMostOnceFrom_handleCleanupRef. exact H.
    - exact H. }
  destruct (cleanUpPreviousCall w) as [w1 [u|e]]; cbn [fst] in *;
    [|exact H1].
  cbv zeta. destruct H1 as [H1 Hext1].
  set (w2 := mkWorld (hook w1)
               (history w1 ++ [EvOperation (cb_ref (oc_callback self)) args])).
  assert (H2 : AtMostOnceFrom r n0 base w2).
  { split.
    - apply AtMostOnce_operation. exact H1.
    - apply Extends_app. exact Hext1. }
  destruct (cb_run (oc_callback self) (history w1) args) as [rv|e] eqn:Hrun;
    [|exact H2].
  unfold AtMostOnceFrom.
  rewrite storeResult_slot. rewrite (proj2 (storeResult_frame rv w2)).
  split; [|exact (proj2 H2)].
  destruct (storedCleanup rv) as [c|] eqn:Hst; [|exact (proj1 H2)].
  apply (AtMostOnce_store (cleanupRef (hook w2))); [|exact (proj1 H2)].
  intros g Hc. subst c. destruct Hext1 as [ext Hext1].
  rewrite Hext1 in Hrun. exact (Hnever _ _ _ _ Hrun Hst).
Qed.

Lemma AtMostOnceFrom_rerender (callback : Callback) (deps : DependencyList)
  (options : option OptionsArg) (w : World) :
  AtMostOnceFrom r n0 base w ->
  AtMostOnceFrom r n0 base (fst (rerender callback deps options w)).
Proof.
  intros H. unfold AtMostOnceFrom. rewrite rerender_world. cbv zeta.
  cbn [hook cleanupRef history].
  destruct (firesOnCommit deps w).
  - apply AtMostOnceFrom_handleCleanupRef. exact H.
  - exact H.
Qed.

Lemma AtMostOnceFrom_unmount (w : World) :
  AtMostOnceFrom r n0 base w ->
  AtMostOnceFrom r n0 base (fst (unmount w)).
Proof.
  intros H. rewrite unmount_world. cbv zeta.
  unmount_cases w; repeat apply AtMostOnceFrom_handleCleanupRef; exact H.
Qed.

Lemma AtMostOnceFrom_run (evs : list HostEvent) (w : World) :
  neverReturns r base (oc_callback (currentCallback w)) ->
  Forall (eventNeverReturns r base) evs ->
  AtMostOnceFrom r n0 base w ->
  AtMostOnceFrom r n0 base (run evs w).
Proof.
  revert w. induction evs as [|ev evs IH]; intros w Hcur Hevs H; [exact H|].
  rewrite run_cons. inversion Hevs as [|ev' evs' Hev Hrest]; subst.
  destruct ev as [callback deps options|args|]; apply IH; try exact Hrest;
    simpl step.
  - rewrite rerender_current. unfold useCleanupCallback, useCallback.
    cbn [fst returned].
    destruct (areHookInputsEqual (deps_items deps)
                (snd (memoCallback (hook w)))); [exact Hcur | exact Hev].
  - apply AtMostOnceFrom_rerender. exact H.
  - unfold currentCallback. rewrite outputCallback_frame. exact Hcur.
  - apply AtMostOnceFrom_outputCallback; assumption.
  - unfold currentCallback. rewrite unmount_frame. exact Hcur.
  - apply AtMostOnceFrom_unmount. exact H.
Qed.

End AtMostOnceInvariant.

(** C1. Once a cleanup has been stored, its body runs at most once.  On the
    cleanup object: any number of teardowns in a row run it at most once, and
    after the first one nothing is pending; a body that throws has thrown to
    the caller of that teardown and is marked as called all the same, so the
    next teardown does nothing.  On the hook: from any moment on, and so from
    the moment a function is stored, through any run of calls, renders and
    unmounts, repeated ones included, in which that function is not handed
    out again, its body runs at most once more. *)
Theorem at_most_once :
  (forall (action : Value) (n : nat),
     snd (fireTimes n (mkCleanupObj action false)) =
       match action, n with
       | VFun f, S _ => [EvCleanup (fn_ref f)]
       | _, _ => []
       end /\
     List.length (snd (fireTimes n (mkCleanupObj action false))) <= 1 /\
     (1 <= n ->
      pending (fst (fireTimes n (mkCleanupObj action false))) = false)) /\
  (forall (f : Fn) (e : string),
     fn_throws f = Some e ->
     handleCleanupObj (mkCleanupObj (VFun f) false) =
       (mkCleanupObj (VFun f) true, [EvCleanup (fn_ref f)], Throw e) /\
     handleCleanupObj (mkCleanupObj (VFun f) true) =
       (mkCleanupObj (VFun f) true, [], Normal tt)) /\
  (forall (w : World) (f : Fn) (evs : list HostEvent),
     neverReturns (fn_ref f) (history w) (oc_callback (currentCallback w)) ->
     Forall (eventNeverReturns (fn_ref f) (history w)) evs ->
     executions (fn_ref f) (history (run evs w)) <=
       executions (fn_ref f) (history w) + 1).
Proof.
  split; [|split].
  - intros action n. destruct n as [|n].
    + simpl. repeat split; [destruct action; reflexivity | lia | lia].
    + rewrite fireTimes_once. cbn [fst snd]. repeat split.
      * rewrite handleCleanupObj_events. destruct action; reflexivity.
      * rewrite handleCleanupObj_events. simpl.
        destruct action; simpl; lia.
      * intros _. apply handleCleanupObj_consumes.
  - intros f e He. unfold handleCleanupObj. simpl. rewrite He.
    split; reflexivity.
  - intros w f evs Hcur Hevs.
    apply (AtMostOnceFrom_run (fn_ref f) (executions (fn_ref f) (history w))
             (history w) evs w Hcur Hevs).
    split; [|apply Extends_refl].
    split; [lia|]. intros. reflexivity.
Qed.

Lemma at_most_once_witness :
  let w := calledOnce freshRelease None in
  cleanupRef (hook w) = mkCleanupObj (VFun (mkFn 0 None)) false /\
  executions 0 (history (run [Call []; Call []; Unmount; Unmount] w)) <=
    executions 0 (history w) + 1 /\
  handleCleanupObj
    (mkCleanupObj (VFun (mkFn 9 (Some "cleanup failed"))) false) =
    (mkCleanupObj (VFun (mkFn 9 (Some "cleanup failed"))) true,
     [EvCleanup 9], Throw "cleanup failed").
Proof.
  intros w.
  assert (Hcur : neverReturns 0 (history w)
                   (oc_callback (currentCallback w))).
  { intros ext args rv f Hrun Hst. simpl in Hrun. inversion Hrun. subst rv.
    simpl in Hst. inversion Hst. simpl. discriminate. }
  assert (Hevs : Forall (eventNeverReturns 0 (history w))
                   [Call []; Call []; Unmount; Unmount]).
  { repeat constructor. }
  destruct at_most_once as [_ [Hthrow Hrun]].
  split; [reflexivity|]. split.
  - exact (Hrun w (mkFn 0 None) [Call []; Call []; Unmount; Unmount]
             Hcur Hevs).
  - exact (proj1 (Hthrow (mkFn 9 (Some "cleanup failed")) "cleanup failed"
                    eq_refl)).
Defined.

(** A cleanup that throws, through a call, a render under a new array and two
    unmounts, with every teardown switched on: its body has run once. *)
Example throwing_cleanup_runs_once :
  let options := Some (mkOptionsArg (Some true) (Some true) (Some true)) in
  let w := calledOnce throwingRelease options in
  executions 9
    (history (run [Render (inputCallback 3) (depsOf 1 "b") options;
                   Call []; Unmount; Unmount] w)) = 1.
Proof. reflexivity. Qed.

(** ** Fresh cleanups *)

Lemma Fresh_fire (obj : CleanupObj) (past : list Event) :
  Fresh obj past ->
  Fresh (fst (fst (handleCleanupObj obj)))
    (past ++ snd (fst (handleCleanupObj obj))).
Proof.
  intros [Hnd [Hran [Hlt Hnew]]].
  destruct (pending obj) eqn:Hp.
  - destruct (pending_function obj Hp) as [f [Hc Hi]].
    rewrite (handleCleanupObj_pending obj f Hc Hi). cbn [fst snd].
    unfold Fresh. rewrite cleanups_app, countOperations_app. simpl.
    rewrite Nat.add_0_r. repeat split.
    + apply NoDup_app; [exact Hnd | repeat constructor; intros [] |].
      intros r Hr [Hr'|[]]. subst r. exact (Hnew f Hc Hi Hr).
    + intros r Hr. apply in_app_or in Hr. destruct Hr as [Hr|[Hr|[]]].
      * exact (Hran r Hr).
      * subst r. exact (Hlt f Hc).
    + intros g Hg. injection Hg as Hg. subst g. exact (Hlt f Hc).
    + intros g _ Habs. discriminate Habs.
  - rewrite (handleCleanupObj_idle obj Hp). cbn [fst snd].
    rewrite app_nil_r. repeat split; assumption.
Qed.

Lemma Fresh_operation (obj : CleanupObj) (past : list Event) (cb : nat)
  (args : list Value) :
  Fresh obj past -> Fresh obj (past ++ [EvOperation cb args]).
Proof.
  intros [Hnd [Hran [Hlt Hnew]]]. unfold Fresh.
  rewrite cleanups_app, countOperations_app. simpl. rewrite app_nil_r.
  repeat split.
  - exact Hnd.
  - intros r Hr. specialize (Hran r Hr). lia.
  - intros f Hf. specialize (Hlt f Hf). lia.
  - exact Hnew.
Qed.

Lemma Fresh_store (obj : CleanupObj) (past : list Event) (cb : nat)
  (args : list Value) (c : Value) :
  (forall f, c = VFun f -> fn_ref f = countOperations past) ->
  Fresh obj past ->
  Fresh (mkCleanupObj c false) (past ++ [EvOperation cb args]).
Proof.
  intros Hc [Hnd [Hran [Hlt Hnew]]]. unfold Fresh.
  rewrite cleanups_app, countOperations_app.
  change (countOperations [EvOperation cb args]) with 1.
  simpl. rewrite app_nil_r.
  repeat split.
  - exact Hnd.
  - intros r Hr. specialize (Hran r Hr). lia.
  - intros f Hf. rewrite (Hc f Hf). lia.
  - intros f Hf _ Hin. specialize (Hran _ Hin). rewrite (Hc f Hf) in Hran.
    lia.
Qed.

Lemma FreshWorld_handleCleanupRef (w : World) :
  FreshWorld w -> FreshWorld (fst (handleCleanupRef w)).
Proof.
  intros [H Hcur]. unfold FreshWorld, currentCallback.
  rewrite handleCleanupRef_eq. cbn [fst hook history]. split.
  - apply Fresh_fire. exact H.
  - exact Hcur.
Qed.

Lemma FreshWorld_outputCallback (args : list Value) (w : World) :
  FreshWorld w -> FreshWorld (fst (outputCallback (currentCallback w) args w)).
Proof.
  intros H. pose proof (proj2 H) as Hcur.
  unfold FreshWorld, currentCallback at 3.
  rewrite outputCallback_frame. cbn [withCleanupRef memoCallback].
  split; [|exact Hcur].
  rewrite outputCallback_eq.
  assert (H1 : FreshWorld (fst (cleanUpPreviousCall w))).
  { rewrite cleanUpPreviousCall_eq.
    destruct (cleanUpOnCall (optionsRef (hook w))).
    - apply FreshWorld_handleCleanupRef. exact H.
    - exact H. }
  destruct (cleanUpPreviousCall w) as [w1 [u|e]]; cbn [fst] in *;
    [|exact (proj1 H1)].
  cbv zeta. destruct H1 as [H1 _].
  set (self := currentCallback w) in *.
  set (w2 := mkWorld (hook w1)
               (history w1 ++ [EvOperation (cb_ref (oc_callback self)) args])).
  destruct (cb_run (oc_callback self) (history w1) args) as [rv|e] eqn:Hrun.
  - rewrite storeResult_slot. rewrite (proj2 (storeResult_frame rv w2)).
    destruct (storedCleanup rv) as [c|] eqn:Hst.
    + apply (Fresh_store (cleanupRef (hook w1))); [|exact H1].
      intros f Hc. subst c. exact (Hcur _ _ _ _ Hrun Hst).
    + apply Fresh_operation. exact H1.
  - apply Fresh_operation. exact H1.
Qed.

Lemma FreshWorld_rerender (callback : Callback) (deps : DependencyList)
  (options : option OptionsArg) (w : World) :
  handsOutFresh callback ->
  FreshWorld w -> FreshWorld (fst (rerender callback deps options w)).
Proof.
  intros Hcb H. unfold FreshWorld. rewrite rerender_current.
  rewrite rerender_world. cbv zeta. cbn [hook cleanupRef history]. split.
  - destruct (firesOnCommit deps w).
    + exact (proj1 (FreshWorld_handleCleanupRef w H)).
    + exact (proj1 H).
  - unfold useCleanupCallback, useCallback. cbn [fst returned].
    destruct (areHookInputsEqual (deps_items deps)
                (snd (memoCallback (hook w)))); [exact (proj2 H) | exact Hcb].
Qed.

Lemma FreshWorld_unmount (w : World) :
  FreshWorld w -> FreshWorld (fst (unmount w)).
Proof.
  intros H. rewrite unmount_world. cbv zeta.
  unmount_cases w; repeat apply FreshWorld_handleCleanupRef; exact H.
Qed.

(** X9. When every call hands out a new function, no cleanup body runs twice
    in any run of calls, renders and unmounts, repeated unmounts and failing
    callbacks and cleanups included. *)
Theorem fresh_cleanups_run_once (callback0 : Callback)
  (deps0 : DependencyList) (options0 : option OptionsArg)
  (evs : list HostEvent) :
  handsOutFresh callback0 ->
  Forall freshEvent evs ->
  NoDup (cleanups
           (history
              (run evs
                 (snd (useCleanupCallback_mount callback0 deps0 options0))))).
Proof.
  intros Hcb Hevs.
  assert (H0 : FreshWorld
                 (snd (useCleanupCallback_mount callback0 deps0 options0))).
  { split; [|exact Hcb]. simpl. repeat split.
    - constructor.
    - intros r [].
    - intros f Hf. discriminate Hf.
    - intros f Hf. discriminate Hf. }
  revert H0.
  generalize (snd (useCleanupCallback_mount callback0 deps0 options0)).
  induction evs as [|ev evs IH]; intros w Hw.
  - exact (proj1 (proj1 Hw)).
  - rewrite run_cons. inversion Hevs as [|ev' evs' Hev Hrest]; subst.
    apply (IH Hrest). destruct ev as [callback deps options|args|]; simpl step.
    + apply FreshWorld_rerender; assumption.
    + apply FreshWorld_outputCallback. exact Hw.
    + apply FreshWorld_unmount. exact Hw.
Qed.

Lemma fresh_cleanups_run_once_witness :
  NoDup (cleanups
           (history
              (run [Call [];
                    Render freshRelease (depsA 1) (onlyOnDepsChange true);
                    Call []; Unmount; Unmount]
                 (snd (useCleanupCallback_mount freshRelease (depsA 0)
                         (onlyOnDepsChange true)))))).
Proof.
  assert (Hfresh : handsOutFresh freshRelease).
  { intros past args rv f Hrun Hst. simpl in Hrun. injection Hrun as Hrv.
    subst rv. simpl in Hst. injection Hst as Hf. subst f. reflexivity. }
  apply fresh_cleanups_run_once; [exact Hfresh|].
  repeat constructor. exact Hfresh.
Defined.

(** ** Calls, one after the other *)

Lemma call_after_pending_cleanup (w : World) (args : list Value) (f : Fn) :
  cleanUpOnCall (optionsRef (hook w)) = true ->
  cleanupRef (hook w) = mkCleanupObj (VFun f) false ->
  fn_throws f = None ->
  history (step (Call args) w) =
    history w ++
    [EvCleanup (fn_ref f);
     EvOperation (cb_ref (oc_callback (currentCallback w))) args].
Proof.
  intros Hon Hslot Hret. simpl step.
  rewrite outputCallback_eq, cleanUpPreviousCall_eq, Hon, handleCleanupRef_eq.
  rewrite (handleCleanupObj_pending (cleanupRef (hook w)) f)
    by (rewrite Hslot; reflexivity).
  rewrite Hret. cbn [fst snd]. cbv zeta. cbn [history hook].
  set (w2 := mkWorld _ _).
  assert (Hh : history w2 =
    history w ++
    [EvCleanup (fn_ref f);
     EvOperation (cb_ref (oc_callback (currentCallback w))) args]).
  { subst w2. cbn [history]. rewrite <- app_assoc. reflexivity. }
  destruct (cb_run (oc_callback (currentCallback w))
              (history w ++ [EvCleanup (fn_ref f)]) args) as [rv|e].
  - rewrite (proj2 (storeResult_frame rv w2)). exact Hh.
  - exact Hh.
Qed.

(** X10. With [cleanUpOnCall] set, a call runs the cleanup stored by the call
    before it first, and only then enters the callback. *)
Theorem call_runs_previous_cleanup_first (w : World) (args : list Value)
  (f : Fn) :
  cleanUpOnCall (optionsRef (hook w)) = true ->
  cleanupRef (hook w) = mkCleanupObj (VFun f) false ->
  fn_throws f = None ->
  history (step (Call args) w) =
    history w ++
    [EvCleanup (fn_ref f);
     EvOperation (cb_ref (oc_callback (currentCallback w))) args].
Proof. exact (call_after_pending_cleanup w args f). Qed.

Lemma call_runs_previous_cleanup_first_witness :
  history (step (Call [VStr "x"]) (calledOnce freshRelease None)) =
    history (calledOnce freshRelease None) ++
    [EvCleanup 0; EvOperation 0 [VStr "x"]].
Proof.
  exact (call_runs_previous_cleanup_first (calledOnce freshRelease None)
           [VStr "x"] (mkFn 0 None) eq_refl eq_refl eq_refl).
Defined.

(** C2. Default options, a callback returning a fresh cleanup on each call:
    three calls and then the unmount give exactly this history.  [c0] runs at
    the start of the second call, before the callback is entered again, [c1] at
    the start of the third, [c2] at the unmount, each once. *)
Theorem default_three_calls_then_unmount (deps : DependencyList)
  (options : option OptionsArg) (a1 a2 a3 : list Value) :
  resolveOptions options = defaultOptions ->
  history (run [Call a1; Call a2; Call a3; Unmount]
             (snd (useCleanupCallback_mount freshRelease deps options))) =
    [EvOperation 0 a1;
     EvCleanup 0; EvOperation 0 a2;
     EvCleanup 1; EvOperation 0 a3;
     EvCleanup 2].
Proof.
  intros Hopt. unfold useCleanupCallback_mount. rewrite Hopt. reflexivity.
Qed.

Lemma default_three_calls_then_unmount_witness :
  history (run [Call []; Call [VStr "x"]; Call []; Unmount]
             (snd (useCleanupCallback_mount freshRelease (depsA 0) None))) =
    [EvOperation 0 [];
     EvCleanup 0; EvOperation 0 [VStr "x"];
     EvCleanup 1; EvOperation 0 [];
     EvCleanup 2].
Proof.
  apply (default_three_calls_then_unmount (depsA 0) None [] [VStr "x"] []).
  reflexivity.
Defined.

(** ** The teardown on a change of dependencies *)

(** What the code does: committing a render runs the cleanup object through
    [handleCleanupObj] exactly when the array object passed as [deps] is not
    the array object of the render before, and the option was set at that
    render before.  The elements of the arrays play no part. *)
Lemma firesOnCommit_by_reference (callback0 : Callback)
  (deps0 : DependencyList) (options0 : option OptionsArg)
  (evs : list HostEvent) (deps : DependencyList) :
  let w := run evs (snd (useCleanupCallback_mount callback0 deps0 options0)) in
  firesOnCommit deps w =
    negb (Nat.eqb (deps_ref deps) (deps_ref (lastDeps evs deps0))) &&
    cleanUpOnDepsChange (optionsRef (hook w)).
Proof.
  intros w. subst w. unfold firesOnCommit, effectDepsChanged.
  rewrite (effectDeps_run evs deps0) by reflexivity.
  simpl. rewrite andb_true_r. reflexivity.
Qed.

(** C3 at a failing input.  With [cleanUpOnDepsChange] set, the hook is
    mounted under the array [["a"]] and called once, which stores [c0].  The
    next render passes a new array [["a"]]: the key is equal and the function
    returned is the one returned before, and still [c0] is run. *)
Lemma deps_teardown_on_equal_key :
  let options := onlyOnDepsChange true in
  let w := calledOnce freshRelease options in
  let r := rerender freshRelease (depsA 1) options w in
  areHookInputsEqual (deps_items (depsA 1)) (deps_items (depsA 0)) = true /\
  snd r = Normal (currentCallback w) /\
  cleanups (history w) = [] /\
  cleanups (history (fst r)) = [0].
Proof. repeat split; reflexivity. Qed.

(** The same teardown is also notified at disposal: with [cleanUpOnUnmount]
    off and [cleanUpOnDepsChange] on, the unmount runs [c0]. *)
Example deps_teardown_on_unmount :
  let options := Some (mkOptionsArg None (Some true) (Some false)) in
  let w := calledOnce freshRelease options in
  cleanups (history (run [Unmount] w)) = [0].
Proof. reflexivity. Qed.

(** When the key does change, the same teardown runs [c0] once, and a second
    change of key does not run it again. *)
Example deps_teardown_on_changed_key :
  let options := onlyOnDepsChange true in
  let w := calledOnce freshRelease options in
  cleanups (history (run [Render freshRelease (depsOf 1 "b") options] w))
    = [0] /\
  cleanups (history (run [Render freshRelease (depsOf 1 "b") options;
                          Render freshRelease (depsOf 2 "c") options] w))
    = [0].
Proof. split; reflexivity. Qed.

(** ** One call of the output callback *)

(** C7. When the callback returns an object, the call of the output callback
    that ran it returns that object's [value] property, the very same value,
    whatever the state of the cleanup object before the call was; the
    object's [cleanup] is stored, not yet called. *)
Theorem value_pass_through (w w1 : World) (self : OutputCallback)
  (args : list Value) (ref : nat) (props : list (string * Value)) :
  cleanUpPreviousCall w = (w1, Normal tt) ->
  cb_run (oc_callback self) (history w1) args = Normal (VObj ref props) ->
  snd (outputCallback self args w) = Normal (getProp "value" props) /\
  cleanupRef (hook (fst (outputCallback self args w))) =
    mkCleanupObj (getProp "cleanup" props) false.
Proof.
  intros H1 Hrun. rewrite outputCallback_eq, H1. cbv zeta. rewrite Hrun.
  split; reflexivity.
Qed.

Lemma value_pass_through_witness :
  snd (outputCallback (mkOutput 0 fooWithCleanup) []
         (calledOnce fooWithCleanup None)) = Normal (VStr "foo") /\
  cleanupRef (hook (fst (outputCallback (mkOutput 0 fooWithCleanup) []
                           (calledOnce fooWithCleanup None)))) =
    mkCleanupObj (VFun (mkFn 7 None)) false.
Proof.
  apply (value_pass_through (calledOnce fooWithCleanup None)
           (fst (cleanUpPreviousCall (calledOnce fooWithCleanup None)))
           (mkOutput 0 fooWithCleanup) [] 0
           [("value", VStr "foo"); ("cleanup", VFun (mkFn 7 None))]);
    reflexivity.
Defined.

(** Scenario 3: the first call returns ["foo"] and the cleanup has not run;
    the second call returns ["foo"] again and the cleanup of the first call
    has run once. *)
Example foo_twice :
  let w0 := snd (useCleanupCallback_mount fooWithCleanup (depsA 0) None) in
  let r1 := outputCallback (currentCallback w0) [] w0 in
  let r2 := outputCallback (currentCallback (fst r1)) [] (fst r1) in
  snd r1 = Normal (VStr "foo") /\ cleanups (history (fst r1)) = [] /\
  snd r2 = Normal (VStr "foo") /\ cleanups (history (fst r2)) = [7].
Proof. repeat split; reflexivity. Qed.

(** C8. When the callback throws, the output callback throws the same error
    to its caller and writes nothing: the hook is as the guarded cleanup of the
    previous call left it, that is, handled by [handleCleanupObj] when
    [cleanUpOnCall] was set (so nothing is pending any more), and untouched
    otherwise. *)
Theorem operation_failure (w w1 : World) (self : OutputCallback)
  (args : list Value) (e : string) :
  cleanUpPreviousCall w = (w1, Normal tt) ->
  cb_run (oc_callback self) (history w1) args = Throw e ->
  snd (outputCallback self args w) = Throw e /\
  hook (fst (outputCallback self args w)) = hook w1 /\
  history (fst (outputCallback self args w)) =
    history w1 ++ [EvOperation (cb_ref (oc_callback self)) args] /\
  cleanupRef (hook w1) =
    (if cleanUpOnCall (optionsRef (hook w))
     then fst (fst (handleCleanupObj (cleanupRef (hook w))))
     else cleanupRef (hook w)) /\
  (cleanUpOnCall (optionsRef (hook w)) = true ->
   pending (cleanupRef (hook (fst (outputCallback self args w)))) = false).
Proof.
  intros H1 Hrun. rewrite outputCallback_eq, H1. cbv zeta. rewrite Hrun.
  cbn [fst snd hook history].
  assert (Hslot : cleanupRef (hook w1) =
    (if cleanUpOnCall (optionsRef (hook w))
     then fst (fst (handleCleanupObj (cleanupRef (hook w))))
     else cleanupRef (hook w))).
  { rewrite cleanUpPreviousCall_eq in H1.
    destruct (cleanUpOnCall (optionsRef (hook w))).
    - rewrite handleCleanupRef_eq in H1. inversion H1. reflexivity.
    - inversion H1. reflexivity. }
  repeat split; try assumption.
  intros Hc. rewrite Hslot, Hc. apply handleCleanupObj_consumes.
Qed.

Lemma operation_failure_witness :
  snd (outputCallback (mkOutput 5 failing) []
         (calledOnce freshRelease None)) = Throw "boom" /\
  cleanupRef (hook (fst (outputCallback (mkOutput 5 failing) []
                           (calledOnce freshRelease None)))) =
    mkCleanupObj (VFun (mkFn 0 None)) true.
Proof.
  pose proof (operation_failure (calledOnce freshRelease None)
                (fst (cleanUpPreviousCall (calledOnce freshRelease None)))
                (mkOutput 5 failing) [] "boom" eq_refl eq_refl)
    as [Hthrow [Hhook _]].
  split; [exact Hthrow | rewrite Hhook; reflexivity].
Defined.

(** C9. When the callback returns a function, the output callback stores that
    function as the cleanup, not yet called, and what it returns to its caller
    is that same function: the caller gets no value apart from the cleanup
    itself. *)
Theorem release_only (w w1 : World) (self : OutputCallback)
  (args : list Value) (f : Fn) :
  cleanUpPreviousCall w = (w1, Normal tt) ->
  cb_run (oc_callback self) (history w1) args = Normal (VFun f) ->
  snd (outputCallback self args w) = Normal (VFun f) /\
  cleanupRef (hook (fst (outputCallback self args w))) =
    mkCleanupObj (VFun f) false.
Proof.
  intros H1 Hrun. rewrite outputCallback_eq, H1. cbv zeta. rewrite Hrun.
  split; reflexivity.
Qed.

Lemma release_only_witness :
  snd (outputCallback (mkOutput 0 freshRelease) []
         (calledOnce freshRelease None)) = Normal (VFun (mkFn 1 None)) /\
  cleanupRef (hook (fst (outputCallback (mkOutput 0 freshRelease) []
                           (calledOnce freshRelease None)))) =
    mkCleanupObj (VFun (mkFn 1 None)) false.
Proof.
  apply (release_only (calledOnce freshRelease None)
           (fst (cleanUpPreviousCall (calledOnce freshRelease None)))
           (mkOutput 0 freshRelease) [] (mkFn 1 None)); reflexivity.
Defined.

(** The claim C4 as the specification states it fails: with [cleanUpOnCall]
    off, a call whose callback returns nothing leaves the cleanup stored by
    the call before it in the ref, not yet called, and the unmount that
    follows runs it. *)
Lemma empty_result_keeps_earlier_cleanup :
  let w := calledOnce releaseOnce (onlyOnCall false) in
  let r := outputCallback (currentCallback w) [] w in
  cb_run releaseOnce (history (fst (cleanUpPreviousCall w))) [] =
    Normal VUndefined /\
  snd r = Normal VUndefined /\
  cleanupRef (hook (fst r)) = mkCleanupObj (VFun (mkFn 0 None)) false /\
  pending (cleanupRef (hook (fst r))) = true /\
  cleanups (history (fst r)) = [] /\
  cleanups (history (fst (unmount (fst r)))) = [0].
Proof. repeat split; reflexivity. Qed.

(** C4, amended.  When the callback returns [undefined], the output callback
    returns [undefined] and does not write the ref: the hook is exactly as the
    guarded cleanup of the previous call left it.  When [cleanUpOnCall] was
    set at that call, nothing is pending afterwards, and a later
    [handleCleanupObj] on the stored object runs nothing.  When it was not
    set, the cleanup object is the one from before the call. *)
Theorem empty_result_leaves_slot (w w1 : World) (self : OutputCallback)
  (args : list Value) :
  cleanUpPreviousCall w = (w1, Normal tt) ->
  cb_run (oc_callback self) (history w1) args = Normal VUndefined ->
  snd (outputCallback self args w) = Normal VUndefined /\
  hook (fst (outputCallback self args w)) = hook w1 /\
  (cleanUpOnCall (optionsRef (hook w)) = true ->
   pending (cleanupRef (hook (fst (outputCallback self args w)))) = false /\
   handleCleanupObj (cleanupRef (hook (fst (outputCallback self args w)))) =
     (cleanupRef (hook (fst (outputCallback self args w))), [], Normal tt)) /\
  (cleanUpOnCall (optionsRef (hook w)) = false ->
   cleanupRef (hook (fst (outputCallback self args w))) =
     cleanupRef (hook w)).
Proof.
  intros H1 Hrun. rewrite outputCallback_eq, H1. cbv zeta. rewrite Hrun.
  cbn [storeResult typeof ret fst snd hook].
  rewrite cleanUpPreviousCall_eq in H1.
  split; [reflexivity|]. split; [reflexivity|]. split.
  - intros Hon. rewrite Hon, handleCleanupRef_eq in H1.
    injection H1 as Hw1 _. subst w1. cbn [hook cleanupRef withCleanupRef].
    split; [|apply handleCleanupObj_idle]; apply handleCleanupObj_consumes.
  - intros Hoff. rewrite Hoff in H1. injection H1 as Hw1. subst w1.
    reflexivity.
Qed.

Lemma empty_result_leaves_slot_witness :
  snd (outputCallback (mkOutput 0 releaseOnce) []
         (calledOnce releaseOnce None)) = Normal VUndefined /\
  pending (cleanupRef (hook (fst (outputCallback (mkOutput 0 releaseOnce) []
                                    (calledOnce releaseOnce None))))) = false.
Proof.
  pose proof (empty_result_leaves_slot (calledOnce releaseOnce None)
                (fst (cleanUpPreviousCall (calledOnce releaseOnce None)))
                (mkOutput 0 releaseOnce) [] eq_refl eq_refl)
    as [Hret [_ [Hidle _]]].
  split; [exact Hret | exact (proj1 (Hidle eq_refl))].
Defined.

(** ** Dependency keys *)

Lemma objectIs_refl (a : Value) : objectIs a a = true.
Proof.
  destruct a; simpl; try reflexivity.
  - destruct b; reflexivity.
  - apply Z.eqb_refl.
  - apply String.eqb_refl.
  - apply Nat.eqb_refl.
  - apply Nat.eqb_refl.
  - apply Nat.eqb_refl.
Qed.

Lemma areHookInputsEqual_refl (xs : list Value) :
  areHookInputsEqual xs xs = true.
Proof.
  induction xs as [|x xs IH]; simpl; [reflexivity|].
  rewrite objectIs_refl, IH. reflexivity.
Qed.

Lemma objectIs_sym (a b : Value) : objectIs a b = objectIs b a.
Proof.
  destruct a, b; simpl; try reflexivity.
  - destruct b, b0; reflexivity.
  - apply Z.eqb_sym.
  - apply String.eqb_sym.
  - apply Nat.eqb_sym.
  - apply Nat.eqb_sym.
  - apply Nat.eqb_sym.
Qed.

Lemma objectIs_trans (a b c : Value) :
  objectIs a b = true -> objectIs b c = true -> objectIs a c = true.
Proof.
  destruct a, b; simpl; try discriminate; destruct c; simpl;
    try discriminate; try reflexivity.
  - destruct b, b0, b1; simpl; congruence.
  - rewrite !Z.eqb_eq. congruence.
  - rewrite !String.eqb_eq. congruence.
  - rewrite !Nat.eqb_eq. congruence.
  - rewrite !Nat.eqb_eq. congruence.
  - rewrite !Nat.eqb_eq. congruence.
Qed.

Lemma areHookInputsEqual_sym (xs ys : list Value) :
  areHookInputsEqual xs ys = areHookInputsEqual ys xs.
Proof.
  revert ys. induction xs as [|x xs IH]; destruct ys as [|y ys]; simpl;
    try reflexivity.
  rewrite objectIs_sym, IH. reflexivity.
Qed.

Lemma areHookInputsEqual_trans (xs ys zs : list Value) :
  areHookInputsEqual xs ys = true -> areHookInputsEqual ys zs = true ->
  areHookInputsEqual xs zs = true.
Proof.
  revert ys zs. induction xs as [|x xs IH]; destruct ys as [|y ys];
    destruct zs as [|z zs]; simpl; try discriminate; try reflexivity.
  rewrite !andb_true_iff. intros [Hxy Hxs] [Hyz Hys]. split.
  - exact (objectIs_trans x y z Hxy Hyz).
  - exact (IH ys zs Hxs Hys).
Qed.

(** ** Referential stability *)

(** The [useCallback] cell of a mounted hook: the closure it holds was built
    by an earlier render, and the key it holds is equal to the key of the
    latest render. *)
Lemma memoCallback_run (evs : list HostEvent) (deps0 : DependencyList)
  (w : World) :
  oc_ref (currentCallback w) < renders (hook w) ->
  areHookInputsEqual (deps_items deps0) (snd (memoCallback (hook w))) = true ->
  oc_ref (currentCallback (run evs w)) < renders (hook (run evs w)) /\
  areHookInputsEqual (deps_items (lastDeps evs deps0))
    (snd (memoCallback (hook (run evs w)))) = true.
Proof.
  revert deps0 w. induction evs as [|ev evs IH]; intros deps0 w Hlt Hkey.
  - split; assumption.
  - rewrite run_cons. destruct ev as [callback deps options|args|];
      simpl lastDeps; apply IH; unfold currentCallback in *; simpl step.
    + rewrite rerender_world. cbn [hook memoCallback renders].
      unfold useCallback.
      destruct (areHookInputsEqual (deps_items deps)
                  (snd (memoCallback (hook w)))); simpl; lia.
    + rewrite rerender_world. cbn [hook memoCallback].
      unfold useCallback.
      destruct (areHookInputsEqual (deps_items deps)
                  (snd (memoCallback (hook w)))) eqn:He.
      * exact He.
      * apply areHookInputsEqual_refl.
    + rewrite outputCallback_frame. exact Hlt.
    + rewrite outputCallback_frame. exact Hkey.
    + rewrite unmount_frame. exact Hlt.
    + rewrite unmount_frame. exact Hkey.
Qed.

Lemma operations_app (xs ys : list Event) :
  operations (xs ++ ys) = operations xs ++ operations ys.
Proof.
  induction xs as [|[cb args|f] xs IH]; simpl; [reflexivity | | exact IH].
  rewrite IH. reflexivity.
Qed.

Lemma operations_handleCleanupRef (w : World) :
  operations (history (fst (handleCleanupRef w))) = operations (history w).
Proof.
  rewrite handleCleanupRef_eq. cbn [fst history].
  rewrite operations_app, handleCleanupObj_events.
  destruct (cleanup (cleanupRef (hook w))); simpl; try apply app_nil_r.
  destruct (isCalled (cleanupRef (hook w))); simpl; apply app_nil_r.
Qed.

Lemma operations_cleanUpPreviousCall (w : World) :
  operations (history (fst (cleanUpPreviousCall w))) = operations (history w).
Proof.
  rewrite cleanUpPreviousCall_eq.
  destruct (cleanUpOnCall (optionsRef (hook w))).
  - apply operations_handleCleanupRef.
  - reflexivity.
Qed.

(** What the output callback returns does not depend on the state it stores
    into. *)
Lemma storeResult_result (returnValue : Value) (w w' : World) :
  snd (storeResult returnValue w) = snd (storeResult returnValue w').
Proof. destruct returnValue; reflexivity. Qed.

(** Once the cleanup of the previous call is through, a call of [self]
    enters the callback [self] holds, on the arguments and the history of that
    moment, and returns what [storeResult] makes of its result. *)
Lemma outputCallback_enters (self : OutputCallback) (args : list Value)
  (w w1 : World) :
  cleanUpPreviousCall w = (w1, Normal tt) ->
  history (fst (outputCallback self args w)) =
    history w1 ++ [EvOperation (cb_ref (oc_callback self)) args] /\
  snd (outputCallback self args w) =
    match cb_run (oc_callback self) (history w1) args with
    | Normal returnValue => snd (storeResult returnValue w1)
    | Throw e => Throw e
    end.
Proof.
  intros H1. rewrite outputCallback_eq, H1. cbv zeta.
  destruct (cb_run (oc_callback self) (history w1) args) as [rv|e].
  - rewrite (proj2 (storeResult_frame rv _)). split; [reflexivity|].
    apply storeResult_result.
  - split; reflexivity.
Qed.

Lemma operations_call (w : World) (args : list Value) :
  operations (history (step (Call args) w)) =
    operations (history w) ++
    match snd (cleanUpPreviousCall w) with
    | Normal _ => [cb_ref (oc_callback (currentCallback w))]
    | Throw _ => []
    end.
Proof.
  simpl step. pose proof (operations_cleanUpPreviousCall w) as Hc.
  rewrite outputCallback_eq.
  destruct (cleanUpPreviousCall w) as [w1 [u|e]]; cbn [fst snd] in *.
  - cbv zeta.
    destruct (cb_run (oc_callback (currentCallback w)) (history w1) args)
      as [rv|e].
    + rewrite (proj2 (storeResult_frame rv _)). cbn [history].
      rewrite operations_app, Hc. reflexivity.
    + cbn [fst history]. rewrite operations_app, Hc. reflexivity.
  - rewrite Hc. symmetry. apply app_nil_r.
Qed.

Lemma operations_render (callback : Callback) (deps : DependencyList)
  (options : option OptionsArg) (w : World) :
  operations (history (step (Render callback deps options) w)) =
    operations (history w).
Proof.
  simpl step. rewrite rerender_world. cbv zeta. cbn [history].
  destruct (firesOnCommit deps w).
  - apply operations_handleCleanupRef.
  - reflexivity.
Qed.

Lemma operations_unmount (w : World) :
  operations (history (step Unmount w)) = operations (history w).
Proof.
  simpl step. rewrite unmount_world. cbv zeta.
  unmount_cases w; rewrite ?operations_handleCleanupRef; reflexivity.
Qed.

(** While the renders keep the key, the hook keeps the function it returned
    first, and every call enters the callback that function was built with,
    whatever callbacks the renders pass. *)
Lemma stale_while_key_kept (key : list Value) (r : nat)
  (evs : list HostEvent) (w : World) :
  Forall (keepsKey key) evs ->
  areHookInputsEqual (snd (memoCallback (hook w))) key = true ->
  cb_ref (oc_callback (currentCallback w)) = r ->
  Forall (fun cb => cb = r) (operations (history w)) ->
  currentCallback (run evs w) = currentCallback w /\
  Forall (fun cb => cb = r) (operations (history (run evs w))).
Proof.
  revert w. induction evs as [|ev evs IH]; intros w Hevs Hkey Hr Hops.
  - split; [reflexivity | exact Hops].
  - rewrite run_cons. inversion Hevs as [|ev' evs' Hev Hrest].
    subst ev' evs'.
    assert (Hstep : currentCallback (step ev w) = currentCallback w /\
                    snd (memoCallback (hook (step ev w))) =
                      snd (memoCallback (hook w)) /\
                    Forall (fun cb => cb = r)
                      (operations (history (step ev w)))).
    { destruct ev as [callback deps options|args|].
      - assert (Heq : areHookInputsEqual (deps_items deps)
                        (snd (memoCallback (hook w))) = true).
        { rewrite areHookInputsEqual_sym in Hkey.
          exact (areHookInputsEqual_trans _ _ _ Hev Hkey). }
        rewrite operations_render. unfold currentCallback. simpl step.
        rewrite rerender_world. cbn [hook memoCallback]. unfold useCallback.
        rewrite Heq. repeat split. exact Hops.
      - rewrite operations_call. unfold currentCallback at 1. simpl step.
        rewrite outputCallback_frame. cbn [withCleanupRef memoCallback].
        repeat split. apply Forall_app. split; [exact Hops|].
        destruct (snd (cleanUpPreviousCall w)); repeat constructor.
        exact Hr.
      - rewrite operations_unmount. unfold currentCallback at 1. simpl step.
        rewrite unmount_frame. cbn [withCleanupRef memoCallback].
        repeat split. exact Hops. }
    destruct Hstep as [Hcur [Hmemo Hops']].
    destruct (IH (step ev w) Hrest) as [Hc Ho].
    + rewrite Hmemo. exact Hkey.
    + rewrite Hcur. exact Hr.
    + exact Hops'.
    + split; [rewrite Hc; exact Hcur | exact Ho].
Qed.

(** C5. Take a mounted hook after any run, and render it once more.  The
    function this render returns is the one later calls go through.  If the
    key now passed equals the key of the render before, it is the function
    returned before, the same closure holding the callback it was built with,
    whatever callback is passed now, and a call of it enters that earlier
    callback and returns what comes of its result.  If the key differs, it
    is a new function, holding the callback passed now, and a call of it
    enters the callback passed now.  So as long as the renders of the run
    kept the key the hook was mounted with, the hook still holds the function
    it returned first and every call so far entered the first callback. *)
Theorem referential_stability (callback0 : Callback) (deps0 : DependencyList)
  (options0 : option OptionsArg) (evs : list HostEvent)
  (callback : Callback) (deps : DependencyList)
  (options : option OptionsArg) :
  let w := run evs (snd (useCleanupCallback_mount callback0 deps0 options0)) in
  let out :=
    returned (fst (useCleanupCallback callback deps options (hook w))) in
  let w' := fst (rerender callback deps options w) in
  currentCallback w' = out /\
  (areHookInputsEqual (deps_items deps)
     (deps_items (lastDeps evs deps0)) = true ->
   out = currentCallback w /\
   oc_callback out = oc_callback (currentCallback w) /\
   forall args w1,
     cleanUpPreviousCall w' = (w1, Normal tt) ->
     history (step (Call args) w') =
       history w1 ++
       [EvOperation (cb_ref (oc_callback (currentCallback w))) args] /\
     snd (outputCallback (currentCallback w') args w') =
       match cb_run (oc_callback (currentCallback w)) (history w1) args with
       | Normal returnValue => snd (storeResult returnValue w1)
       | Throw e => Throw e
       end) /\
  (areHookInputsEqual (deps_items deps)
     (deps_items (lastDeps evs deps0)) = false ->
   oc_ref out <> oc_ref (currentCallback w) /\
   oc_callback out = callback /\
   forall args w1,
     cleanUpPreviousCall w' = (w1, Normal tt) ->
     history (step (Call args) w') =
       history w1 ++ [EvOperation (cb_ref callback) args] /\
     snd (outputCallback (currentCallback w') args w') =
       match cb_run callback (history w1) args with
       | Normal returnValue => snd (storeResult returnValue w1)
       | Throw e => Throw e
       end) /\
  (Forall (keepsKey (deps_items deps0)) evs ->
   currentCallback w =
     fst (useCleanupCallback_mount callback0 deps0 options0) /\
   Forall (fun cb => cb = cb_ref callback0) (operations (history w))).
Proof.
  intros w out w'.
  destruct (memoCallback_run evs deps0
              (snd (useCleanupCallback_mount callback0 deps0 options0)))
    as [Hlt Hkey].
  - simpl. lia.
  - apply areHookInputsEqual_refl.
  - fold w in Hlt, Hkey.
    assert (Hcur : currentCallback w' = out).
    { subst w' out. apply rerender_current. }
    assert (Hcall : forall args w1,
              cleanUpPreviousCall w' = (w1, Normal tt) ->
              history (step (Call args) w') =
                history w1 ++ [EvOperation (cb_ref (oc_callback out)) args] /\
              snd (outputCallback (currentCallback w') args w') =
                match cb_run (oc_callback out) (history w1) args with
                | Normal returnValue => snd (storeResult returnValue w1)
                | Throw e => Throw e
                end).
    { intros args w1 H1. simpl step. rewrite Hcur.
      exact (outputCallback_enters out args w' w1 H1). }
    split; [exact Hcur|]. split; [|split].
    + intros Hk.
      assert (Hout : out = currentCallback w).
      { subst out. unfold useCleanupCallback, useCallback.
        cbn [fst returned].
        rewrite (areHookInputsEqual_trans _ _ _ Hk Hkey). reflexivity. }
      split; [exact Hout|]. split; [rewrite Hout; reflexivity|].
      intros args w1 H1. rewrite <- Hout. exact (Hcall args w1 H1).
    + intros Hk.
      assert (Hout : oc_ref out <> oc_ref (currentCallback w) /\
                     oc_callback out = callback).
      { subst out. unfold useCleanupCallback, useCallback.
        cbn [fst returned].
        destruct (areHookInputsEqual (deps_items deps)
                    (snd (memoCallback (hook w)))) eqn:He.
        - rewrite areHookInputsEqual_sym in Hkey.
          rewrite (areHookInputsEqual_trans _ _ _ He Hkey) in Hk.
          discriminate.
        - cbn [fst oc_ref oc_callback]. split; [|reflexivity].
          unfold currentCallback in *. lia. }
      destruct Hout as [Hne Hcb].
      split; [exact Hne|]. split; [exact Hcb|].
      intros args w1 H1. rewrite <- Hcb. exact (Hcall args w1 H1).
    + intros Hkept.
      exact (stale_while_key_kept (deps_items deps0) (cb_ref callback0) evs
               (snd (useCleanupCallback_mount callback0 deps0 options0))
               Hkept (areHookInputsEqual_refl _) eq_refl (Forall_nil _)).
Qed.

Lemma referential_stability_witness :
  let w := calledOnce (inputCallback 1) None in
  let same := fst (rerender (inputCallback 2) (depsA 1) None w) in
  let changed := fst (rerender (inputCallback 3) (depsOf 2 "b") None w) in
  returned (fst (useCleanupCallback (inputCallback 2) (depsA 1) None
                  (hook w))) =
    currentCallback w /\
  oc_ref (returned (fst (useCleanupCallback (inputCallback 3)
                           (depsOf 2 "b") None (hook w))))
    <> oc_ref (currentCallback w) /\
  history (step (Call []) same) = [EvOperation 1 []; EvOperation 1 []] /\
  history (step (Call []) changed) = [EvOperation 1 []; EvOperation 3 []] /\
  operations (history w) = [1].
Proof.
  pose proof (referential_stability (inputCallback 1) (depsA 0) None
                [Call []] (inputCallback 2) (depsA 1) None)
    as [_ [Hsame [_ Hkept]]].
  pose proof (referential_stability (inputCallback 1) (depsA 0) None
                [Call []] (inputCallback 3) (depsOf 2 "b") None)
    as [_ [_ [Hnew _]]].
  destruct (Hsame eq_refl) as [Hout [_ Hcall]].
  destruct (Hnew eq_refl) as [Hne [_ Hcall']].
  assert (Hevs : Forall (keepsKey (deps_items (depsA 0))) [Call []]).
  { repeat constructor. }
  destruct (Hkept Hevs) as [_ Hops].
  split; [exact Hout|]. split; [exact Hne|].
  split; [exact (proj1 (Hcall [] _ eq_refl))|].
  split; [exact (proj1 (Hcall' [] _ eq_refl))|].
  reflexivity.
Defined.

(** The first test of the repository: after a render with an unchanged key
    and another callback, a call still enters the first callback; after a
    render with a changed key, a call enters the callback of that render. *)
Example stale_until_key_changes :
  let w0 := snd (useCleanupCallback_mount (inputCallback 1)
                   (depsOf 0 "some_dependency") None) in
  let w1 := run [Call [];
                 Render (inputCallback 2) (depsOf 1 "some_dependency") None;
                 Call []] w0 in
  let w2 := run [Render (inputCallback 3)
                   (depsOf 2 "some changed dependency") None;
                 Call []] w1 in
  currentCallback w1 = currentCallback w0 /\
  history w1 = [EvOperation 1 []; EvOperation 1 []] /\
  oc_ref (currentCallback w2) <> oc_ref (currentCallback w0) /\
  history w2 = [EvOperation 1 []; EvOperation 1 []; EvOperation 3 []].
Proof. repeat split; try reflexivity. simpl. discriminate. Qed.

(** ** Cleanup on unmount only *)

Lemma Quiet_call (w : World) (args : list Value) :
  Quiet w ->
  exists returnValue f,
    cb_run (oc_callback (currentCallback w)) (history w) args =
      Normal returnValue /\
    storedCleanup returnValue = Some (VFun f) /\
    cleanupRef (hook (step (Call args) w)) = mkCleanupObj (VFun f) false /\
    Quiet (step (Call args) w).
Proof.
  intros [Hopt [Harms Hnone]].
  destruct (Harms (history w) args) as [rv [f [Hrun Hst]]].
  exists rv, f. split; [exact Hrun|]. split; [exact Hst|].
  assert (Hstep : step (Call args) w =
    fst (storeResult rv
           (mkWorld (hook w)
              (history w ++
               [EvOperation (cb_ref (oc_callback (currentCallback w)))
                  args])))).
  { simpl step. rewrite outputCallback_eq, cleanUpPreviousCall_eq, Hopt.
    cbv zeta. simpl cleanUpOnCall. cbv iota. rewrite Hrun. reflexivity. }
  rewrite Hstep.
  set (w2 := mkWorld (hook w)
               (history w ++
                [EvOperation (cb_ref (oc_callback (currentCallback w)))
                   args])).
  split.
  - rewrite storeResult_slot, Hst. reflexivity.
  - destruct (storeResult_frame rv w2) as [Hh Hp].
    unfold Quiet, currentCallback. rewrite Hh, Hp. subst w2.
    cbn [hook history]. repeat split.
    + exact Hopt.
    + exact Harms.
    + rewrite cleanups_app, Hnone. reflexivity.
Qed.

Lemma Quiet_render (w : World) (callback : Callback)
  (deps : DependencyList) (options : option OptionsArg) :
  arms callback -> resolveOptions options = unmountOnly ->
  Quiet w ->
  cleanupRef (hook (step (Render callback deps options) w)) =
    cleanupRef (hook w) /\
  Quiet (step (Render callback deps options) w).
Proof.
  intros Hcb Hres [Hopt [Harms Hnone]].
  simpl step. rewrite rerender_world.
  unfold firesOnCommit. rewrite Hopt. simpl cleanUpOnDepsChange.
  rewrite andb_false_r. cbv zeta. split; [reflexivity|].
  unfold Quiet, currentCallback. cbn [hook history optionsRef memoCallback].
  repeat split.
  - exact Hres.
  - unfold useCallback.
    destruct (areHookInputsEqual (deps_items deps)
                (snd (memoCallback (hook w)))); [exact Harms | exact Hcb].
  - exact Hnone.
Qed.

Lemma Quiet_run (evs : list HostEvent) (w : World) :
  Forall unmountOnlyEvent evs -> Quiet w -> Quiet (run evs w).
Proof.
  revert w. induction evs as [|ev evs IH]; intros w Hevs Hw; [exact Hw|].
  rewrite run_cons. inversion Hevs as [|ev' evs' Hev Hrest]; subst.
  apply IH; [exact Hrest|].
  destruct ev as [callback deps options|args|].
  - destruct Hev as [Hcb Hres]. apply Quiet_render; assumption.
  - destruct (Quiet_call w args Hw) as [rv [f [_ [_ [_ Hq]]]]]. exact Hq.
  - destruct Hev.
Qed.

Lemma Quiet_renders_keep_slot (evs : list HostEvent) (w : World) :
  Forall unmountOnlyEvent evs -> Forall isRender evs -> Quiet w ->
  cleanupRef (hook (run evs w)) = cleanupRef (hook w).
Proof.
  revert w. induction evs as [|ev evs IH]; intros w Hevs Hren Hw;
    [reflexivity|].
  rewrite run_cons.
  inversion Hevs as [|ev' evs' Hev Hrest]; subst.
  inversion Hren as [|ev' evs' Hr Hrrest]; subst.
  destruct ev as [callback deps options|args|]; try destruct Hr.
  destruct Hev as [Hcb Hres].
  destruct (Quiet_render w callback deps options Hcb Hres Hw) as [Hslot Hq].
  rewrite (IH _ Hrest Hrrest Hq). exact Hslot.
Qed.

Lemma Quiet_unmount (w : World) :
  Quiet w ->
  cleanups (history (step Unmount w)) =
    cleanups (snd (fst (handleCleanupObj (cleanupRef (hook w))))).
Proof.
  intros [Hopt [_ Hnone]]. simpl step. rewrite unmount_world, Hopt.
  simpl cleanUpOnDepsChange. simpl cleanUpOnUnmount. cbv zeta iota.
  rewrite handleCleanupRef_eq. cbn [fst history].
  rewrite cleanups_app, Hnone. reflexivity.
Qed.

(** C6. A hook kept on [cleanUpOnCall = false], [cleanUpOnDepsChange = false]
    and [cleanUpOnUnmount = true], whose callbacks return a cleanup function
    on every call, through any run of calls and renders: no cleanup runs
    before the unmount; and at the unmount the cleanup returned by the last
    call runs, once, and no other (none at all if there was no call). *)
Theorem unmount_only_fires_last (callback0 : Callback)
  (deps0 : DependencyList) (options0 : option OptionsArg)
  (evs : list HostEvent) :
  arms callback0 ->
  resolveOptions options0 = unmountOnly ->
  Forall unmountOnlyEvent evs ->
  let w0 := snd (useCleanupCallback_mount callback0 deps0 options0) in
  cleanups (history (run evs w0)) = [] /\
  (Forall isRender evs ->
   cleanups (history (run (evs ++ [Unmount]) w0)) = []) /\
  (forall evs1 args evs2,
     evs = evs1 ++ Call args :: evs2 -> Forall isRender evs2 ->
     exists returnValue f,
       cb_run (oc_callback (currentCallback (run evs1 w0)))
         (history (run evs1 w0)) args = Normal returnValue /\
       storedCleanup returnValue = Some (VFun f) /\
       cleanups (history (run (evs ++ [Unmount]) w0)) = [fn_ref f]).
Proof.
  intros Harms Hopt Hevs w0.
  assert (Hq0 : Quiet w0).
  { unfold Quiet, w0. simpl. repeat split; assumption. }
  pose proof (Quiet_run evs w0 Hevs Hq0) as Hq.
  split; [exact (proj2 (proj2 Hq))|]. split.
  - intros Hren. rewrite run_app. change (run [Unmount] (run evs w0))
      with (step Unmount (run evs w0)).
    rewrite (Quiet_unmount _ Hq).
    rewrite (Quiet_renders_keep_slot evs w0 Hevs Hren Hq0). reflexivity.
  - intros evs1 args evs2 Hsplit Hren. subst evs.
    apply Forall_app in Hevs. destruct Hevs as [Hevs1 Hevs2].
    inversion Hevs2 as [|ev evs' _ Hevs2']; subst.
    pose proof (Quiet_run evs1 w0 Hevs1 Hq0) as Hq1.
    destruct (Quiet_call (run evs1 w0) args Hq1)
      as [rv [f [Hrun [Hst [Hslot Hq2]]]]].
    exists rv, f. split; [exact Hrun|]. split; [exact Hst|].
    rewrite run_app.
    change (run [Unmount] (run (evs1 ++ Call args :: evs2) w0))
      with (step Unmount (run (evs1 ++ Call args :: evs2) w0)).
    rewrite (Quiet_unmount _ Hq).
    rewrite run_app, run_cons.
    rewrite (Quiet_renders_keep_slot evs2 _ Hevs2' Hren Hq2), Hslot.
    reflexivity.
Qed.

Lemma unmount_only_fires_last_witness :
  let w0 := snd (useCleanupCallback_mount freshRelease (depsA 0)
                   (onlyOnCall false)) in
  cleanups (history (run [Call []; Call []; Call []] w0)) = [] /\
  exists returnValue f,
    cb_run freshRelease (history (run [Call []; Call []] w0)) [] =
      Normal returnValue /\
    storedCleanup returnValue = Some (VFun f) /\
    cleanups (history (run ([Call []; Call []; Call []] ++ [Unmount]) w0)) =
      [fn_ref f].
Proof.
  assert (Harms : arms freshRelease).
  { intros past args. eexists. eexists. split; reflexivity. }
  assert (Hevs : Forall unmountOnlyEvent [Call []; Call []; Call []]).
  { repeat constructor. }
  pose proof (unmount_only_fires_last freshRelease (depsA 0) (onlyOnCall false)
                [Call []; Call []; Call []] Harms eq_refl Hevs)
    as [Hnone [_ Hlast]].
  split; [exact Hnone|].
  exact (Hlast [Call []; Call []] [] [] eq_refl (Forall_nil _)).
Defined.

(** Scenario 2: three calls and the unmount with [cleanUpOnCall = false];
    only [c2] runs, and only at the unmount. *)
Example three_calls_without_cleanup_on_call :
  let w0 := snd (useCleanupCallback_mount freshRelease (depsA 0)
                   (onlyOnCall false)) in
  history (run [Call []; Call []; Call []] w0) =
    [EvOperation 0 []; EvOperation 0 []; EvOperation 0 []] /\
  history (run [Call []; Call []; Call []; Unmount] w0) =
    [EvOperation 0 []; EvOperation 0 []; EvOperation 0 []; EvCleanup 2].
Proof. split; reflexivity. Qed.

(** ** The tests of the repository *)

(** "Calls cleanup on deps change when the option is true": the counts of
    [mockCleanup0] and [mockCleanup1] after each action of the test. *)
Example test_cleanup_on_deps_change :
  let options := onlyOnDepsChange true in
  let w0 := snd (useCleanupCallback_mount (returnsMock 0) (depsOf 0 "dep0")
                   options) in
  let w1 := run [Call []; Render (returnsMock 1) (depsOf 1 "dep1") options]
              w0 in
  let w2 := step (Call []) w1 in
  let w3 := step (Call []) w2 in
  let w4 := step Unmount w3 in
  let counts w := (executions 0 (history w), executions 1 (history w)) in
  counts w1 = (1, 0) /\ counts w2 = (1, 0) /\ counts w3 = (1, 1) /\
  counts w4 = (1, 2).
Proof. repeat split; reflexivity. Qed.

(** "Does not call cleanup on deps change when the option is false". *)
Example test_no_cleanup_on_deps_change :
  let options := onlyOnDepsChange false in
  let w0 := snd (useCleanupCallback_mount (returnsMock 0) (depsOf 0 "dep0")
                   options) in
  let w1 := run [Call []; Render (returnsMock 1) (depsOf 1 "dep1") options]
              w0 in
  let w2 := step (Call []) w1 in
  let w3 := step (Call []) w2 in
  let w4 := step Unmount w3 in
  let counts w := (executions 0 (history w), executions 1 (history w)) in
  counts w1 = (0, 0) /\ counts w2 = (1, 0) /\ counts w3 = (1, 1) /\
  counts w4 = (1, 2).
Proof. repeat split; reflexivity. Qed.

(** The three tests that call three times, render again with a new array
    literal and unmount, under [cleanUpOnUnmount: true],
    [cleanUpOnUnmount: false] and [cleanUpOnCall: false]: the count of
    [mockCleanup0] after the calls, after the render and after the unmount. *)
Example test_unmount_and_call_options :
  let counts options :=
    let w0 := snd (useCleanupCallback_mount (returnsMock 0) (emptyDeps 0)
                     options) in
    let w1 := run [Call []; Call []; Call []] w0 in
    let w2 := step (Render (returnsMock 0) (emptyDeps 1) options) w1 in
    let w3 := step Unmount w2 in
    (executions 0 (history w1), executions 0 (history w2),
     executions 0 (history w3)) in
  counts (Some (mkOptionsArg None None (Some true))) = (2, 2, 3) /\
  counts (Some (mkOptionsArg None None (Some false))) = (2, 2, 2) /\
  counts (onlyOnCall false) = (0, 0, 1).
Proof. repeat split; reflexivity. Qed.

(** * Further properties *)

(** ** No cleanup is lost *)

Lemma pendingRefs_events (obj : CleanupObj) :
  cleanups (snd (fst (handleCleanupObj obj))) = pendingRefs obj.
Proof.
  rewrite handleCleanupObj_events. unfold pendingRefs.
  destruct (cleanup obj); try reflexivity.
  destruct (isCalled obj); reflexivity.
Qed.

Lemma pendingRefs_consumed (obj : CleanupObj) :
  pendingRefs (fst (fst (handleCleanupObj obj))) = [].
Proof.
  pose proof (handleCleanupObj_consumes obj) as Hc.
  unfold pending, isFunction in Hc. unfold pendingRefs.
  destruct (cleanup (fst (fst (handleCleanupObj obj)))); try reflexivity.
  destruct (isCalled (fst (fst (handleCleanupObj obj)))); [reflexivity|].
  discriminate Hc.
Qed.

Lemma owed_handleCleanupRef (w : World) :
  cleanups (history (fst (handleCleanupRef w))) = owed w /\
  pendingRefs (cleanupRef (hook (fst (handleCleanupRef w)))) = [].
Proof.
  rewrite handleCleanupRef_eq. cbn [fst hook history cleanupRef withCleanupRef].
  split.
  - rewrite cleanups_app, pendingRefs_events. reflexivity.
  - apply pendingRefs_consumed.
Qed.

Lemma owed_after_teardown (w : World) :
  owed (fst (handleCleanupRef w)) = owed w.
Proof.
  unfold owed at 1. destruct (owed_handleCleanupRef w) as [Hh Hp].
  rewrite Hh, Hp. apply app_nil_r.
Qed.

Lemma owed_call (w : World) (args : list Value) :
  cleanUpOnCall (optionsRef (hook w)) = true ->
  owed (step (Call args) w) = owed w ++ handedOutByCall w args.
Proof.
  intros Hon. simpl step. unfold handedOutByCall.
  rewrite outputCallback_eq, cleanUpPreviousCall_eq, Hon.
  destruct (owed_handleCleanupRef w) as [Hh Hp].
  destruct (handleCleanupRef w) as [w1 [u|e]]; cbn [fst] in *.
  - cbv zeta.
    set (w2 := mkWorld (hook w1)
                 (history w1 ++
                  [EvOperation (cb_ref (oc_callback (currentCallback w)))
                     args])).
    assert (H2 : cleanups (history w2) = owed w).
    { subst w2. cbn [history]. rewrite cleanups_app, Hh. apply app_nil_r. }
    destruct (cb_run (oc_callback (currentCallback w)) (history w1) args)
      as [rv|e].
    + unfold owed at 1. rewrite storeResult_slot.
      rewrite (proj2 (storeResult_frame rv w2)), H2. f_equal.
      unfold handedOutBy. destruct (storedCleanup rv) as [c|].
      * destruct c; reflexivity.
      * subst w2. cbn [hook]. exact Hp.
    + cbn [fst]. unfold owed at 1. rewrite H2. subst w2. cbn [hook].
      rewrite Hp. reflexivity.
  - unfold owed at 1. rewrite Hh, Hp. reflexivity.
Qed.

Lemma owed_render (callback : Callback) (deps : DependencyList)
  (options : option OptionsArg) (w : World) :
  owed (step (Render callback deps options) w) = owed w.
Proof.
  simpl step. rewrite rerender_world. cbv zeta. unfold owed at 1.
  cbn [hook history cleanupRef]. destruct (firesOnCommit deps w).
  - exact (owed_after_teardown w).
  - reflexivity.
Qed.

Lemma owed_run (evs : list HostEvent) (w : World) :
  Forall keepsCleanups evs ->
  cleanUpOnCall (optionsRef (hook w)) = true ->
  cleanUpOnUnmount (optionsRef (hook w)) = true ->
  owed (run evs w) = owed w ++ handedOut evs w /\
  cleanUpOnUnmount (optionsRef (hook (run evs w))) = true.
Proof.
  revert w. induction evs as [|ev evs IH]; intros w Hevs Hcall Hunm.
  - simpl. rewrite app_nil_r. split; [reflexivity | exact Hunm].
  - rewrite run_cons. inversion Hevs as [|ev' evs' Hev Hrest]; subst.
    destruct ev as [callback deps options|args|].
    + destruct Hev as [Hc Hu].
      destruct (IH (step (Render callback deps options) w) Hrest)
        as [Ho Hu'].
      * simpl step. rewrite rerender_world. exact Hc.
      * simpl step. rewrite rerender_world. exact Hu.
      * split; [|exact Hu']. rewrite Ho, owed_render. reflexivity.
    + destruct (IH (step (Call args) w) Hrest) as [Ho Hu'].
      * simpl step. rewrite outputCallback_frame. exact Hcall.
      * simpl step. rewrite outputCallback_frame. exact Hunm.
      * split; [|exact Hu']. rewrite Ho, (owed_call w args Hcall).
        simpl handedOut. rewrite app_assoc. reflexivity.
    + destruct Hev.
Qed.

Lemma owed_unmount (w : World) :
  cleanUpOnUnmount (optionsRef (hook w)) = true ->
  cleanups (history (step Unmount w)) = owed w.
Proof.
  intros Hunm. simpl step. rewrite unmount_world, Hunm. cbv zeta.
  destruct (cleanUpOnDepsChange (optionsRef (hook w))).
  - destruct (owed_handleCleanupRef (fst (handleCleanupRef w))) as [Hh _].
    rewrite Hh. apply owed_after_teardown.
  - exact (proj1 (owed_handleCleanupRef w)).
Qed.

(** X1. With [cleanUpOnCall] and [cleanUpOnUnmount] set throughout, whatever
    [cleanUpOnDepsChange] is and whatever the callbacks and the cleanups
    return or throw: by the end of the unmount, the cleanup bodies that ran
    are exactly the cleanup functions the calls handed out, each once and in
    the order they were handed out. *)
Theorem no_cleanup_lost (callback0 : Callback) (deps0 : DependencyList)
  (options0 : option OptionsArg) (evs : list HostEvent) :
  cleanUpOnCall (resolveOptions options0) = true ->
  cleanUpOnUnmount (resolveOptions options0) = true ->
  Forall keepsCleanups evs ->
  let w0 := snd (useCleanupCallback_mount callback0 deps0 options0) in
  cleanups (history (run (evs ++ [Unmount]) w0)) = handedOut evs w0.
Proof.
  intros Hcall Hunm Hevs w0.
  destruct (owed_run evs w0 Hevs Hcall Hunm) as [Ho Hu].
  rewrite run_app.
  change (run [Unmount] (run evs w0)) with (step Unmount (run evs w0)).
  rewrite (owed_unmount _ Hu), Ho. reflexivity.
Qed.

Lemma no_cleanup_lost_witness :
  cleanups
    (history
       (run ([Call []; Call []; Render (inputCallback 3) (depsOf 1 "b") None;
              Call []] ++ [Unmount])
          (snd (useCleanupCallback_mount freshRelease (depsA 0) None)))) =
  [0; 1].
Proof.
  assert (Hevs : Forall keepsCleanups
                   [Call []; Call [];
                    Render (inputCallback 3) (depsOf 1 "b") None; Call []]).
  { repeat constructor. }
  exact (no_cleanup_lost freshRelease (depsA 0) None _ eq_refl eq_refl Hevs).
Defined.

(** ** Failures and odd results of one call *)

(** X2. With [cleanUpOnCall] set, when the cleanup stored by the previous
    call throws, the call throws that error without entering the callback,
    and the cleanup is marked as called; the call after that runs no cleanup
    and does enter its callback. *)
Theorem failing_cleanup_blocks_one_call (w : World)
  (self next : OutputCallback) (args args' : list Value) (f : Fn)
  (e : string) :
  cleanUpOnCall (optionsRef (hook w)) = true ->
  cleanupRef (hook w) = mkCleanupObj (VFun f) false ->
  fn_throws f = Some e ->
  let w' := fst (outputCallback self args w) in
  snd (outputCallback self args w) = Throw e /\
  history w' = history w ++ [EvCleanup (fn_ref f)] /\
  cleanupRef (hook w') = mkCleanupObj (VFun f) true /\
  history (fst (outputCallback next args' w')) =
    history w' ++ [EvOperation (cb_ref (oc_callback next)) args'].
Proof.
  intros Hon Hslot He w'.
  assert (Hout : outputCallback self args w =
    (mkWorld (withCleanupRef (mkCleanupObj (VFun f) true) (hook w))
       (history w ++ [EvCleanup (fn_ref f)]), Throw e)).
  { rewrite outputCallback_eq, cleanUpPreviousCall_eq, Hon.
    rewrite handleCleanupRef_eq.
    rewrite (handleCleanupObj_pending (cleanupRef (hook w)) f)
      by (rewrite Hslot; reflexivity).
    rewrite He. reflexivity. }
  subst w'. rewrite Hout. cbn [fst snd hook history cleanupRef withCleanupRef].
  repeat split.
  set (w1 := mkWorld _ _).
  rewrite outputCallback_eq, cleanUpPreviousCall_eq.
  assert (Hidle : handleCleanupRef w1 = (w1, Normal tt)).
  { rewrite handleCleanupRef_eq. subst w1.
    cbn [hook cleanupRef withCleanupRef history].
    rewrite handleCleanupObj_idle by reflexivity. cbn [fst snd].
    rewrite app_nil_r. destruct (hook w). reflexivity. }
  assert (H1 : (if cleanUpOnCall (optionsRef (hook w1))
                then handleCleanupRef w1 else (w1, Normal tt)) =
               (w1, Normal tt)).
  { destruct (cleanUpOnCall (optionsRef (hook w1))); [exact Hidle|].
    reflexivity. }
  rewrite H1. cbv zeta.
  destruct (cb_run (oc_callback next) (history w1) args') as [rv|e'].
  - rewrite (proj2 (storeResult_frame rv _)). reflexivity.
  - reflexivity.
Qed.

Lemma failing_cleanup_blocks_one_call_witness :
  let w := calledOnce throwingRelease None in
  snd (outputCallback (currentCallback w) [] w) = Throw "cleanup failed" /\
  history (fst (outputCallback (currentCallback w) [] w)) =
    history w ++ [EvCleanup 9].
Proof.
  intros w.
  pose proof (failing_cleanup_blocks_one_call w (currentCallback w)
                (currentCallback w) [] [] (mkFn 9 (Some "cleanup failed"))
                "cleanup failed" eq_refl eq_refl eq_refl)
    as [Hthrow [Hhist _]].
  split; [exact Hthrow | exact Hhist].
Defined.

(** X3. When the callback returns [null], the output callback throws after
    the callback has run, and writes nothing: the hook is as the guarded
    cleanup of the previous call left it. *)
Theorem null_result_throws (w w1 : World) (self : OutputCallback)
  (args : list Value) :
  cleanUpPreviousCall w = (w1, Normal tt) ->
  cb_run (oc_callback self) (history w1) args = Normal VNull ->
  (exists e, snd (outputCallback self args w) = Throw e) /\
  hook (fst (outputCallback self args w)) = hook w1 /\
  history (fst (outputCallback self args w)) =
    history w1 ++ [EvOperation (cb_ref (oc_callback self)) args].
Proof.
  intros H1 Hrun. rewrite outputCallback_eq, H1. cbv zeta. rewrite Hrun.
  repeat split. eexists. reflexivity.
Qed.

Lemma null_result_throws_witness :
  let w := calledOnce freshRelease None in
  let self := mkOutput 0 (mkCallback 4 (fun _ _ => Normal VNull)) in
  cleanupRef (hook (fst (outputCallback self [] w))) =
    mkCleanupObj (VFun (mkFn 0 None)) true.
Proof.
  intros w self.
  destruct (null_result_throws w (fst (cleanUpPreviousCall w)) self []
              eq_refl eq_refl) as [_ [Hhook _]].
  rewrite Hhook. reflexivity.
Defined.

(** X4. When the callback returns an object or an array whose [cleanup] is
    not a function, the ref is overwritten with it: nothing is pending after
    the call, and no cleanup ran in the storing.  With [cleanUpOnCall] off a
    cleanup stored earlier and not yet run is thereby dropped without being
    run, where a call returning nothing would have kept it. *)
Theorem object_without_cleanup_clears (w w1 : World) (self : OutputCallback)
  (args : list Value) (returnValue c : Value) :
  cleanUpPreviousCall w = (w1, Normal tt) ->
  cb_run (oc_callback self) (history w1) args = Normal returnValue ->
  storedCleanup returnValue = Some c ->
  isFunction c = false ->
  cleanupRef (hook (fst (outputCallback self args w))) =
    mkCleanupObj c false /\
  pending (cleanupRef (hook (fst (outputCallback self args w)))) = false /\
  cleanups (history (fst (outputCallback self args w))) =
    cleanups (history w1).
Proof.
  intros H1 Hrun Hst Hfun.
  rewrite outputCallback_eq, H1. cbv zeta. rewrite Hrun.
  rewrite storeResult_slot, Hst, (proj2 (storeResult_frame returnValue _)).
  cbn [history]. rewrite cleanups_app, app_nil_r.
  repeat split. unfold pending. simpl. exact Hfun.
Qed.

Lemma object_without_cleanup_clears_witness :
  let w := calledOnce freshRelease (onlyOnCall false) in
  let self :=
    mkOutput 0
      (mkCallback 4 (fun _ _ => Normal (VObj 1 [("value", VStr "foo")]))) in
  pending (cleanupRef (hook w)) = true /\
  pending (cleanupRef (hook (fst (outputCallback self [] w)))) = false /\
  cleanups (history (fst (unmount (fst (outputCallback self [] w))))) = [].
Proof.
  intros w self.
  destruct (object_without_cleanup_clears w
              (fst (cleanUpPreviousCall w)) self []
              (VObj 1 [("value", VStr "foo")]) VUndefined
              eq_refl eq_refl eq_refl eq_refl) as [_ [Hp _]].
  split; [reflexivity|]. split; [exact Hp | reflexivity].
Defined.

(** ** Which steps run a cleanup, and which enter the callback *)

Lemma cleanups_after_call (w : World) (args : list Value) :
  cleanups (history (step (Call args) w)) =
    cleanups (history w) ++
    (if cleanUpOnCall (optionsRef (hook w))
     then pendingRefs (cleanupRef (hook w)) else []).
Proof.
  simpl step. rewrite outputCallback_eq, cleanUpPreviousCall_eq.
  assert (Hentered : forall w1 : World,
    cleanups
      (history
         (fst (let w2 :=
                 mkWorld (hook w1)
                   (history w1 ++
                    [EvOperation (cb_ref (oc_callback (currentCallback w)))
                       args]) in
               match cb_run (oc_callback (currentCallback w)) (history w1)
                       args with
               | Normal returnValue => storeResult returnValue w2
               | Throw e => (w2, Throw e)
               end))) = cleanups (history w1)).
  { intros w1. cbv zeta.
    destruct (cb_run (oc_callback (currentCallback w)) (history w1) args)
      as [rv|e].
    - rewrite (proj2 (storeResult_frame rv _)). cbn [history].
      rewrite cleanups_app. apply app_nil_r.
    - cbn [fst history]. rewrite cleanups_app. apply app_nil_r. }
  destruct (cleanUpOnCall (optionsRef (hook w))).
  - pose proof (proj1 (owed_handleCleanupRef w)) as Hh.
    destruct (handleCleanupRef w) as [w1 [u|e]]; cbn [fst] in Hh.
    + rewrite Hentered. exact Hh.
    + exact Hh.
  - rewrite Hentered. symmetry. apply app_nil_r.
Qed.

(** X5. The options are read when a trigger fires, not when the function is
    built.  A render that passes an unchanged key returns the function
    returned before, and the next call of that function runs the pending
    cleanup exactly when [cleanUpOnCall] was set in the options of that
    render. *)
Theorem options_read_at_the_call (w : World) (callback : Callback)
  (deps : DependencyList) (options : option OptionsArg)
  (args : list Value) :
  areHookInputsEqual (deps_items deps) (snd (memoCallback (hook w))) = true ->
  let w' := step (Render callback deps options) w in
  currentCallback w' = currentCallback w /\
  cleanups (history (step (Call args) w')) =
    cleanups (history w') ++
    (if cleanUpOnCall (resolveOptions options)
     then pendingRefs (cleanupRef (hook w')) else []).
Proof.
  intros Hkey w'. split.
  - subst w'. simpl step. rewrite rerender_current.
    unfold useCleanupCallback, useCallback. rewrite Hkey. reflexivity.
  - rewrite cleanups_after_call. subst w'. simpl step.
    rewrite rerender_world. reflexivity.
Qed.

Lemma options_read_at_the_call_witness :
  let w := calledOnce freshRelease (onlyOnCall true) in
  let w' := step (Render freshRelease (depsA 1) (onlyOnCall false)) w in
  currentCallback w' = currentCallback w /\
  cleanups (history (step (Call []) w')) = [].
Proof.
  intros w w'.
  destruct (options_read_at_the_call w freshRelease (depsA 1)
              (onlyOnCall false) [] eq_refl) as [Hsame Hrun].
  split; [exact Hsame | exact Hrun].
Defined.

Lemma handleCleanupRef_quiet (w : World) :
  countOperations (history (fst (handleCleanupRef w))) =
    countOperations (history w) /\
  cleanup (cleanupRef (hook (fst (handleCleanupRef w)))) =
    cleanup (cleanupRef (hook w)).
Proof.
  rewrite handleCleanupRef_eq. cbn [fst hook history cleanupRef withCleanupRef].
  rewrite countOperations_app, handleCleanupObj_events.
  unfold handleCleanupObj.
  destruct (cleanupRef (hook w)) as [c called]. cbn [cleanup isCalled].
  destruct called; destruct c; simpl; split; try reflexivity;
    try apply Nat.add_0_r.
Qed.

(** X6. Only a call enters the callback or replaces the stored cleanup: a
    render and an unmount leave the number of times the callback was entered
    and the function held in the ref as they were. *)
Theorem only_a_call_enters_the_callback :
  (forall callback deps options w,
     countOperations (history (step (Render callback deps options) w)) =
       countOperations (history w) /\
     cleanup (cleanupRef (hook (step (Render callback deps options) w))) =
       cleanup (cleanupRef (hook w))) /\
  (forall w,
     countOperations (history (step Unmount w)) =
       countOperations (history w) /\
     cleanup (cleanupRef (hook (step Unmount w))) =
       cleanup (cleanupRef (hook w))).
Proof.
  split.
  - intros callback deps options w. simpl step. rewrite rerender_world.
    cbv zeta. cbn [hook history cleanupRef].
    destruct (firesOnCommit deps w).
    + apply handleCleanupRef_quiet.
    + split; reflexivity.
  - intros w. simpl step. rewrite unmount_world. cbv zeta.
    pose proof (handleCleanupRef_quiet w) as [Hn Hc].
    pose proof (handleCleanupRef_quiet (fst (handleCleanupRef w)))
      as [Hn' Hc'].
    unmount_cases w.
    + rewrite Hn', Hc', Hn, Hc. split; reflexivity.
    + rewrite Hn, Hc. split; reflexivity.
    + rewrite Hn, Hc. split; reflexivity.
    + split; reflexivity.
Qed.

(** X7. An unmount runs the pending cleanup once when [cleanUpOnUnmount] or
    [cleanUpOnDepsChange] is set, and nothing is pending afterwards; with
    both off it runs nothing and leaves the cleanup object as it was. *)
Theorem unmount_runs_pending_once (w : World) :
  cleanups (history (step Unmount w)) =
    cleanups (history w) ++
    (if cleanUpOnDepsChange (optionsRef (hook w))
        || cleanUpOnUnmount (optionsRef (hook w))
     then pendingRefs (cleanupRef (hook w)) else []) /\
  pendingRefs (cleanupRef (hook (step Unmount w))) =
    (if cleanUpOnDepsChange (optionsRef (hook w))
        || cleanUpOnUnmount (optionsRef (hook w))
     then [] else pendingRefs (cleanupRef (hook w))).
Proof.
  simpl step. rewrite unmount_world. cbv zeta.
  destruct (owed_handleCleanupRef w) as [Hh Hp].
  destruct (owed_handleCleanupRef (fst (handleCleanupRef w))) as [Hh' Hp'].
  unmount_cases w; simpl orb; cbv iota.
  - rewrite Hh', Hp'. unfold owed. rewrite Hh, Hp, app_nil_r.
    split; reflexivity.
  - rewrite Hh, Hp. split; reflexivity.
  - rewrite Hh, Hp. split; reflexivity.
  - rewrite app_nil_r. split; reflexivity.
Qed.

(** X8. A render that passes the very array object of the render before runs
    no cleanup and leaves the cleanup object as it was, whatever the
    options. *)
Theorem same_array_render_is_silent (callback0 : Callback)
  (deps0 : DependencyList) (options0 : option OptionsArg)
  (evs : list HostEvent) (callback : Callback) (deps : DependencyList)
  (options : option OptionsArg) :
  deps_ref deps = deps_ref (lastDeps evs deps0) ->
  let w := run evs (snd (useCleanupCallback_mount callback0 deps0 options0)) in
  history (step (Render callback deps options) w) = history w /\
  cleanupRef (hook (step (Render callback deps options) w)) =
    cleanupRef (hook w).
Proof.
  intros Href w. simpl step. rewrite rerender_world.
  subst w. rewrite firesOnCommit_by_reference, Href, Nat.eqb_refl.
  split; reflexivity.
Qed.

Lemma same_array_render_is_silent_witness :
  let w := calledOnce freshRelease (onlyOnDepsChange true) in
  history (step (Render freshRelease (depsA 0) (onlyOnDepsChange true)) w) =
    history w.
Proof.
  intros w.
  exact (proj1 (same_array_render_is_silent freshRelease (depsA 0)
                  (onlyOnDepsChange true) [Call []] freshRelease (depsA 0)
                  (onlyOnDepsChange true) eq_refl)).
Defined.

(** X11. [handleCleanupObj] is idempotent and only ever sets the flag: run on
    its own result it does nothing, and its result is the object marked as
    called when the cleanup is a function, and the object itself otherwise
    (a [null] or [undefined] cleanup is never marked). *)
Theorem handleCleanupObj_idempotent (obj : CleanupObj) :
  handleCleanupObj (fst (fst (handleCleanupObj obj))) =
    (fst (fst (handleCleanupObj obj)), [], Normal tt) /\
  fst (fst (handleCleanupObj obj)) =
    (if isFunction (cleanup obj) then mkCleanupObj (cleanup obj) true
     else obj).
Proof.
  split.
  - apply handleCleanupObj_idle, handleCleanupObj_consumes.
  - unfold handleCleanupObj. destruct obj as [c called]. cbn [cleanup isCalled].
    destruct called; destruct c; reflexivity.
Qed.

(** X16. The functions returned by different renders share the one ref: with
    [cleanUpOnDepsChange] off and [cleanUpOnCall] set, after a render, with a
    changed key or not, the first call of the function that render returned
    runs the cleanup stored through the function returned before, and then
    enters its own callback. *)
Theorem new_function_cleans_up_after_old (w : World) (callback : Callback)
  (deps : DependencyList) (options : option OptionsArg)
  (args : list Value) (f : Fn) :
  cleanUpOnDepsChange (optionsRef (hook w)) = false ->
  cleanUpOnCall (resolveOptions options) = true ->
  cleanupRef (hook w) = mkCleanupObj (VFun f) false ->
  fn_throws f = None ->
  let w' := step (Render callback deps options) w in
  history (step (Call args) w') =
    history w ++
    [EvCleanup (fn_ref f);
     EvOperation (cb_ref (oc_callback (currentCallback w'))) args].
Proof.
  intros Hoff Hon Hslot Hf w'.
  assert (Hw' : history w' = history w /\
                cleanupRef (hook w') = cleanupRef (hook w) /\
                optionsRef (hook w') = resolveOptions options).
  { subst w'. simpl step. rewrite rerender_world. unfold firesOnCommit.
    rewrite Hoff, andb_false_r. repeat split. }
  destruct Hw' as [Hh [Hc Ho]].
  rewrite <- Hh. apply call_after_pending_cleanup.
  - rewrite Ho. exact Hon.
  - rewrite Hc. exact Hslot.
  - exact Hf.
Qed.

Lemma new_function_cleans_up_after_old_witness :
  let w := calledOnce (returnsMock 0) None in
  history (run [Render (returnsMock 1) (depsOf 1 "dep1") None; Call []] w) =
    [EvOperation 0 []; EvCleanup 0; EvOperation 1 []].
Proof.
  intros w.
  exact (new_function_cleans_up_after_old w (returnsMock 1)
           (depsOf 1 "dep1") None [] (mkFn 0 None)
           eq_refl eq_refl eq_refl eq_refl).
Defined.

(** ** The earlier variants *)

Lemma executeIfFunction_cleanups (v : Value) :
  cleanups (fst (executeIfFunction v)) = functionRef v.
Proof. destruct v; reflexivity. Qed.

Lemma legacyTeardown_eq (w : LegacyWorld) :
  legacyTeardown w =
    (mkLegacy (cleanupCallback w)
       (legacyHistory w ++ fst (executeIfFunction (cleanupCallback w))),
     snd (executeIfFunction (cleanupCallback w))).
Proof.
  unfold legacyTeardown.
  destruct (executeIfFunction (cleanupCallback w)). reflexivity.
Qed.

Lemma legacyTeardown_quiet (w : LegacyWorld) :
  quietRef w -> snd (legacyTeardown w) = Normal tt.
Proof.
  intros Hq. rewrite legacyTeardown_eq. cbn [snd]. unfold quietRef in Hq.
  destruct (cleanupCallback w) as [| | | | |f| |]; try reflexivity.
  unfold executeIfFunction. simpl. rewrite (Hq f eq_refl). reflexivity.
Qed.

Lemma legacyRun_cons
  (call : Callback -> list Value -> LegacyWorld
          -> LegacyWorld * Completion Value)
  (ev : LegacyEvent) (evs : list LegacyEvent) (w : LegacyWorld) :
  legacyRun call (ev :: evs) w = legacyRun call evs (legacyStep call ev w).
Proof. reflexivity. Qed.

(** What the two variants share: as long as nothing throws, a call runs the
    function in the ref and leaves there the one it takes from the callback. *)
Section LegacyExactlyOnce.

Variable call :
  Callback -> list Value -> LegacyWorld -> LegacyWorld * Completion Value.
Variable taken : Completion Value -> list nat.
Variable good : Callback -> Prop.

Hypothesis call_good :
  forall callback args w, good callback -> quietRef w ->
    cleanups (legacyHistory (fst (call callback args w))) =
      cleanups (legacyHistory w) ++ functionRef (cleanupCallback w) /\
    functionRef (cleanupCallback (fst (call callback args w))) =
      taken (cb_run callback (legacyHistory (fst (legacyTeardown w))) args) /\
    quietRef (fst (call callback args w)).

Lemma legacy_exactly_once (evs : list LegacyEvent) (w : LegacyWorld) :
  Forall (legacyCallOf good) evs -> quietRef w ->
  cleanups (legacyHistory (legacyRun call (evs ++ [LegacyUnmount]) w)) =
    cleanups (legacyHistory w) ++ functionRef (cleanupCallback w) ++
    legacyHandedOut call taken evs w.
Proof.
  revert w. induction evs as [|ev evs IH]; intros w Hevs Hq.
  - simpl. rewrite legacyTeardown_eq. cbn [fst legacyHistory].
    rewrite cleanups_app, executeIfFunction_cleanups, app_nil_r.
    reflexivity.
  - inversion Hevs as [|ev' evs' Hev Hrest]; subst.
    destruct ev as [callback args|]; [|destruct Hev].
    change ((LegacyCall callback args :: evs) ++ [LegacyUnmount])
      with (LegacyCall callback args :: (evs ++ [LegacyUnmount])).
    rewrite legacyRun_cons. simpl legacyStep.
    destruct (call_good callback args w Hev Hq) as [Hh [Hr Hq']].
    rewrite (IH _ Hrest Hq'), Hh, Hr. simpl legacyHandedOut.
    pose proof (legacyTeardown_quiet w Hq) as Ht.
    destruct (legacyTeardown w) as [w1 c]. cbn [fst snd] in *. subst c.
    rewrite <- !app_assoc. reflexivity.
Qed.

End LegacyExactlyOnce.

Lemma Legacy1_call_good (callback : Callback) (args : list Value)
  (w : LegacyWorld) :
  returnsQuietly callback -> quietRef w ->
  cleanups (legacyHistory (fst (Legacy1.outputCallback callback args w))) =
    cleanups (legacyHistory w) ++ functionRef (cleanupCallback w) /\
  functionRef (cleanupCallback (fst (Legacy1.outputCallback callback args w)))
    = returnedFunction
        (cb_run callback (legacyHistory (fst (legacyTeardown w))) args) /\
  quietRef (fst (Legacy1.outputCallback callback args w)).
Proof.
  intros Hcb Hq. unfold Legacy1.outputCallback.
  pose proof (legacyTeardown_quiet w Hq) as Ht.
  rewrite legacyTeardown_eq in *. cbn [snd fst] in *. rewrite Ht.
  cbn [legacyHistory cleanupCallback].
  destruct (Hcb (legacyHistory w ++
                 fst (executeIfFunction (cleanupCallback w))) args)
    as [rv [Hrun Hrv]].
  rewrite Hrun. cbn [fst legacyHistory cleanupCallback].
  rewrite !cleanups_app, executeIfFunction_cleanups. simpl.
  rewrite app_nil_r. repeat split. exact Hrv.
Qed.

Lemma Legacy2_call_good (callback : Callback) (args : list Value)
  (w : LegacyWorld) :
  storesQuietly callback -> quietRef w ->
  cleanups (legacyHistory (fst (Legacy2.outputCallback callback args w))) =
    cleanups (legacyHistory w) ++ functionRef (cleanupCallback w) /\
  functionRef (cleanupCallback (fst (Legacy2.outputCallback callback args w)))
    = handedOutBy
        (cb_run callback (legacyHistory (fst (legacyTeardown w))) args) /\
  quietRef (fst (Legacy2.outputCallback callback args w)).
Proof.
  intros Hcb Hq. unfold Legacy2.outputCallback.
  pose proof (legacyTeardown_quiet w Hq) as Ht.
  rewrite legacyTeardown_eq in *. cbn [snd fst] in *. rewrite Ht.
  cbn [legacyHistory cleanupCallback].
  destruct (Hcb (legacyHistory w ++
                 fst (executeIfFunction (cleanupCallback w))) args)
    as [rv [c [Hrun [Hst Hc]]]].
  rewrite Hrun. unfold handedOutBy. rewrite Hst.
  destruct rv; try discriminate Hst; injection Hst as Hst; subst c;
    cbn [typeof fst legacyHistory cleanupCallback];
    rewrite !cleanups_app, executeIfFunction_cleanups; simpl;
    rewrite app_nil_r; repeat split; exact Hc.
Qed.

(** X12. The first variant, when no callback and no cleanup throws: by the
    end of the unmount the cleanup bodies that ran are exactly the functions
    the callbacks returned, each once and in order.  A call that returns
    nothing clears the ref. *)
Theorem legacy1_runs_each_cleanup_once (evs : list LegacyEvent) :
  Forall (legacyCallOf returnsQuietly) evs ->
  cleanups
    (legacyHistory
       (legacyRun Legacy1.outputCallback (evs ++ [LegacyUnmount])
          legacyMounted)) =
  legacyHandedOut Legacy1.outputCallback returnedFunction evs legacyMounted.
Proof.
  intros Hevs.
  rewrite (legacy_exactly_once Legacy1.outputCallback returnedFunction
             returnsQuietly Legacy1_call_good evs legacyMounted Hevs).
  - reflexivity.
  - intros f Hf. discriminate Hf.
Qed.

(** X14. The second variant, when every call returns a function or object
    notation and nothing throws: by the end of the unmount the cleanup bodies
    that ran are exactly the cleanup functions handed out, each once and in
    order. *)
Theorem legacy2_runs_each_cleanup_once (evs : list LegacyEvent) :
  Forall (legacyCallOf storesQuietly) evs ->
  cleanups
    (legacyHistory
       (legacyRun Legacy2.outputCallback (evs ++ [LegacyUnmount])
          legacyMounted)) =
  legacyHandedOut Legacy2.outputCallback handedOutBy evs legacyMounted.
Proof.
  intros Hevs.
  rewrite (legacy_exactly_once Legacy2.outputCallback handedOutBy
             storesQuietly Legacy2_call_good evs legacyMounted Hevs).
  - reflexivity.
  - intros f Hf. discriminate Hf.
Qed.

Lemma legacy1_runs_each_cleanup_once_witness :
  cleanups
    (legacyHistory
       (legacyRun Legacy1.outputCallback
          ([LegacyCall freshRelease []; LegacyCall (inputCallback 3) [];
            LegacyCall freshRelease []] ++ [LegacyUnmount])
          legacyMounted)) = [0; 2].
Proof.
  assert (Hfresh : returnsQuietly freshRelease).
  { intros past args. eexists. split; [reflexivity|].
    intros f Hf. injection Hf as Hf. subst f. reflexivity. }
  assert (Hnone : returnsQuietly (inputCallback 3)).
  { intros past args. eexists. split; [reflexivity|].
    intros f Hf. discriminate Hf. }
  assert (Hevs : Forall (legacyCallOf returnsQuietly)
                   [LegacyCall freshRelease []; LegacyCall (inputCallback 3) [];
                    LegacyCall freshRelease []]).
  { repeat constructor; assumption. }
  exact (legacy1_runs_each_cleanup_once _ Hevs).
Defined.

Lemma legacy2_runs_each_cleanup_once_witness :
  cleanups
    (legacyHistory
       (legacyRun Legacy2.outputCallback
          ([LegacyCall freshRelease []; LegacyCall fooWithCleanup []]
           ++ [LegacyUnmount])
          legacyMounted)) = [0; 7].
Proof.
  assert (Hfresh : storesQuietly freshRelease).
  { intros past args. eexists. eexists. split; [reflexivity|].
    split; [reflexivity|].
    intros f Hf. injection Hf as Hf. subst f. reflexivity. }
  assert (Hfoo : storesQuietly fooWithCleanup).
  { intros past args. eexists. eexists. split; [reflexivity|].
    split; [reflexivity|].
    intros f Hf. injection Hf as Hf. subst f. reflexivity. }
  assert (Hevs : Forall (legacyCallOf storesQuietly)
                   [LegacyCall freshRelease []; LegacyCall fooWithCleanup []]).
  { repeat constructor; assumption. }
  exact (legacy2_runs_each_cleanup_once _ Hevs).
Defined.

Lemma Legacy1_history (callback : Callback) (args : list Value)
  (w : LegacyWorld) :
  legacyHistory (fst (Legacy1.outputCallback callback args w)) =
    legacyHistory w ++ fst (executeIfFunction (cleanupCallback w)) ++
    match snd (executeIfFunction (cleanupCallback w)) with
    | Normal _ => [EvOperation (cb_ref callback) args]
    | Throw _ => []
    end.
Proof.
  unfold Legacy1.outputCallback. rewrite legacyTeardown_eq.
  destruct (snd (executeIfFunction (cleanupCallback w))).
  - cbn [legacyHistory cleanupCallback].
    destruct (cb_run callback _ args); cbn [fst legacyHistory];
      rewrite <- app_assoc; reflexivity.
  - cbn [fst legacyHistory]. rewrite app_nil_r. reflexivity.
Qed.

Lemma Legacy2_history (callback : Callback) (args : list Value)
  (w : LegacyWorld) :
  legacyHistory (fst (Legacy2.outputCallback callback args w)) =
    legacyHistory w ++ fst (executeIfFunction (cleanupCallback w)) ++
    match snd (executeIfFunction (cleanupCallback w)) with
    | Normal _ => [EvOperation (cb_ref callback) args]
    | Throw _ => []
    end.
Proof.
  unfold Legacy2.outputCallback. rewrite legacyTeardown_eq.
  destruct (snd (executeIfFunction (cleanupCallback w))).
  - cbn [legacyHistory cleanupCallback].
    destruct (cb_run callback _ args) as [rv|e];
      [destruct rv|]; cbn [typeof fst legacyHistory];
      rewrite <- app_assoc; reflexivity.
  - cbn [fst legacyHistory]. rewrite app_nil_r. reflexivity.
Qed.

Lemma executions_rerun (f : Fn) (past : list Event) (cb cb' : nat)
  (args args' : list Value) :
  executions (fn_ref f)
    ((past ++ [EvCleanup (fn_ref f)] ++ [EvOperation cb args]) ++
     [EvCleanup (fn_ref f)] ++ [EvOperation cb' args']) =
  executions (fn_ref f) past + 2.
Proof.
  rewrite !executions_app. unfold executions at 2 3 4 5. simpl.
  destruct (Nat.eq_dec (fn_ref f) (fn_ref f)) as [_|Hne];
    [lia | destruct (Hne eq_refl)].
Qed.

(** X13. The first variant keeps no flag: when the callback throws, the
    cleanup that was just run stays in the ref, and the next call runs it a
    second time. *)
Theorem legacy1_reruns_after_failure (w : LegacyWorld)
  (callback next : Callback) (args args' : list Value) (f : Fn)
  (e : string) :
  cleanupCallback w = VFun f ->
  fn_throws f = None ->
  cb_run callback (legacyHistory w ++ [EvCleanup (fn_ref f)]) args = Throw e ->
  let w1 := fst (Legacy1.outputCallback callback args w) in
  snd (Legacy1.outputCallback callback args w) = Throw e /\
  cleanupCallback w1 = VFun f /\
  executions (fn_ref f)
    (legacyHistory (fst (Legacy1.outputCallback next args' w1))) =
    executions (fn_ref f) (legacyHistory w) + 2.
Proof.
  intros Href Hf Hrun w1.
  assert (Hex : executeIfFunction (VFun f) =
                ([EvCleanup (fn_ref f)], Normal tt)).
  { unfold executeIfFunction. simpl. rewrite Hf. reflexivity. }
  assert (H1 : Legacy1.outputCallback callback args w =
    (mkLegacy (VFun f)
       ((legacyHistory w ++ [EvCleanup (fn_ref f)]) ++
        [EvOperation (cb_ref callback) args]), Throw e)).
  { unfold Legacy1.outputCallback. rewrite legacyTeardown_eq, Href, Hex.
    cbn [fst snd legacyHistory cleanupCallback]. rewrite Hrun. reflexivity. }
  subst w1. rewrite H1. cbn [fst snd cleanupCallback].
  repeat split.
  rewrite Legacy1_history. cbn [cleanupCallback legacyHistory].
  rewrite Hex. cbn [fst snd]. rewrite <- (app_assoc (legacyHistory w)).
  apply executions_rerun.
Qed.

Lemma legacy1_reruns_after_failure_witness :
  let w := fst (Legacy1.outputCallback freshRelease [] legacyMounted) in
  executions 0
    (legacyHistory
       (fst (Legacy1.outputCallback freshRelease []
               (fst (Legacy1.outputCallback failing [] w))))) = 2.
Proof.
  intros w.
  exact (proj2 (proj2 (legacy1_reruns_after_failure w failing freshRelease
                         [] [] (mkFn 0 None) "boom"
                         eq_refl eq_refl eq_refl))).
Defined.

(** X15. The second variant writes the ref only for an object or a function
    and keeps no flag: when the callback returns anything else, the cleanup
    that was just run stays in the ref, and the next call runs it a second
    time. *)
Theorem legacy2_reruns_after_empty_result (w : LegacyWorld)
  (callback next : Callback) (args args' : list Value) (f : Fn)
  (returnValue : Value) :
  cleanupCallback w = VFun f ->
  fn_throws f = None ->
  cb_run callback (legacyHistory w ++ [EvCleanup (fn_ref f)]) args =
    Normal returnValue ->
  storedCleanup returnValue = None ->
  let w1 := fst (Legacy2.outputCallback callback args w) in
  cleanupCallback w1 = VFun f /\
  executions (fn_ref f)
    (legacyHistory (fst (Legacy2.outputCallback next args' w1))) =
    executions (fn_ref f) (legacyHistory w) + 2.
Proof.
  intros Href Hf Hrun Hst w1.
  assert (Hex : executeIfFunction (VFun f) =
                ([EvCleanup (fn_ref f)], Normal tt)).
  { unfold executeIfFunction. simpl. rewrite Hf. reflexivity. }
  assert (H1 : w1 =
    mkLegacy (VFun f)
      ((legacyHistory w ++ [EvCleanup (fn_ref f)]) ++
       [EvOperation (cb_ref callback) args])).
  { subst w1. unfold Legacy2.outputCallback.
    rewrite legacyTeardown_eq, Href, Hex.
    cbn [fst snd legacyHistory cleanupCallback]. rewrite Hrun.
    destruct returnValue; try discriminate Hst; reflexivity. }
  rewrite H1. cbn [cleanupCallback]. split; [reflexivity|].
  rewrite Legacy2_history. cbn [cleanupCallback legacyHistory].
  rewrite Hex. cbn [fst snd]. rewrite <- (app_assoc (legacyHistory w)).
  apply executions_rerun.
Qed.

Lemma legacy2_reruns_after_empty_result_witness :
  let w := fst (Legacy2.outputCallback freshRelease [] legacyMounted) in
  executions 0
    (legacyHistory
       (fst (Legacy2.outputCallback (inputCallback 3) []
               (fst (Legacy2.outputCallback (inputCallback 3) [] w))))) = 2.
Proof.
  intros w.
  exact (proj2 (legacy2_reruns_after_empty_result w (inputCallback 3)
                  (inputCallback 3) [] [] (mkFn 0 None) VUndefined
                  eq_refl eq_refl eq_refl eq_refl)).
Defined.
